(** * ts_standardscripts: laser-tracker alignment loop and DOF synchronisation

    A shallow embedding of
      - [maintel/laser_tracker/align.py]  (module [Align]),
      - [maintel/sync_dof.py]             (module [SyncDOF]).

    Python [float]s are IEEE binary64 values and are embedded as Rocq's
    primitive floats; Python [int]s are [Z]; astropy [Time]/[TimeDelta] values
    are exact rational numbers of days ([Qc]).  The asynchronous scripts are
    single-task code: they are embedded in a state-and-exception monad whose
    state records the operations performed on the remotes. *)

From Stdlib Require Import ZArith Floats QArith Qcanon.
From stdpp Require Import base decidable option list numbers strings pretty sorting gmap.

Set Default Proof Using "Type".
Set Warnings "-inexact-float".

(** ** Exceptions and the script monad *)

Inductive Exception :=
| RuntimeError (msg : string)
| TimeoutError
| AckError
| TypeError (msg : string)
| IndexError.

Inductive Result (A : Type) :=
| Ok (a : A)
| Raise (e : Exception).
Arguments Ok {A} a.
Arguments Raise {A} e.

(** A script step over a world [W]: it returns a value or raises, and leaves
    a new world either way. *)
Definition M (W A : Type) : Type := W → Result A * W.

Definition ret {W A} (a : A) : M W A := λ w, (Ok a, w).
Definition raise {W A} (e : Exception) : M W A := λ w, (Raise e, w).
Definition bind {W A B} (m : M W A) (k : A → M W B) : M W B :=
  λ w, match m w with
       | (Ok a, w') => k a w'
       | (Raise e, w') => (Raise e, w')
       end.

Notation "'do' x <- m ; k" := (bind m (λ x, k))
  (at level 10, x name, m at level 100, k at level 200,
   format "'[v' 'do'  x  <-  m ; '/' k ']'").
Notation "'do_' m ; k" := (bind m (λ _, k))
  (at level 10, m at level 100, k at level 200,
   format "'[v' 'do_'  m ; '/' k ']'").

(** ** maintel/laser_tracker/align.py *)

Module Align.

(** [class AlignComponent(enum.IntEnum)]: [enum.auto()] numbers from 1. *)
Inductive AlignComponent := M2 | Camera.

Definition AlignComponent_value (c : AlignComponent) : Z :=
  match c with M2 => 1 | Camera => 2 end.

(** [f"{self.target}"]: an IntEnum member formats as its integer value,
    [None] as the text None. *)
Definition format_target (t : option AlignComponent) : string :=
  match t with
  | Some c => pretty (AlignComponent_value c)
  | None => "None"
  end.

(** The attributes of the script object ([self]). *)
Record Script := mkScript {
  timeout_align : Z;
  timeout_std : Z;
  max_iter : Z;
  tolerance_linear : float;
  tolerance_angular : float;
  target : option AlignComponent
}.

Definition init : Script :=
  {| timeout_align := 120;
     timeout_std := 60;
     max_iter := 10;
     tolerance_linear := 1.0e-7;
     tolerance_angular := 5.0 / 3600.0;
     target := None |}.

Record Config := mkConfig {
  cfg_max_iter : Z;
  cfg_target : AlignComponent;
  cfg_tolerance_linear : float;
  cfg_tolerance_angular : float
}.

Definition configure (self : Script) (config : Config) : Script :=
  {| timeout_align := timeout_align self;
     timeout_std := timeout_std self;
     max_iter := cfg_max_iter config;
     tolerance_linear := cfg_tolerance_linear config;
     tolerance_angular := cfg_tolerance_angular config;
     target := Some (cfg_target config) |}.

Definition set_metadata (self : Script) : Z :=
  (timeout_align self + timeout_std self) * max_iter self.

(** One [evt_offsetsPublish] sample of the laser tracker. *)
Record Offsets := mkOffsets {
  dX : float; dY : float; dZ : float; dRX : float; dRY : float
}.

(** The array built at lines 174-182 of [align_target]; the fifth entry is
    gated on [dRX], as in the source. *)
Definition corrections (self : Script) (offset : Offsets) : list float :=
  [ if (tolerance_linear self <? abs (dX offset))%float
    then (dX offset * 1e6)%float else 0%float;
    if (tolerance_linear self <? abs (dY offset))%float
    then (dY offset * 1e6)%float else 0%float;
    if (tolerance_linear self <? abs (dZ offset))%float
    then (dZ offset * 1e6)%float else 0%float;
    if (tolerance_angular self <? abs (dRX offset))%float
    then dRX offset else 0%float;
    if (tolerance_angular self <? abs (dRX offset))%float
    then dRY offset else 0%float ].

(** Truth value of a float: everything but [0.0] and [-0.0]. *)
Definition truthy (c : float) : bool := negb (c =? 0)%float.

(** Python's [any] over an array of floats. *)
Definition any (cs : list float) : bool := existsb truthy cs.

(** [-corrections]. *)
Definition neg (cs : list float) : list float := map PrimFloat.opp cs.

Inductive LogRecord :=
| ApplyingCorrections (n : Z) (total : Z) (cs : list float)
| CorrectionsCompleted (n : Z) (total : Z).

(** Operations on the remotes, in the order the script performs them.
    [CmdAlign] carries the number of the suspension at which the command was
    issued, [NextOffsets] the sample it returned with the number of the
    suspension during which that sample was delivered ([None]: timed out). *)
Inductive Action :=
| Flush
| CmdAlign (tgt : option AlignComponent) (timeout : Z) (issued : nat)
| NextOffsets (timeout : Z) (got : option (nat * Offsets))
| LogInfo (r : LogRecord)
| OffsetM2Hexapod (xyzuv : list float)
| OffsetCameraHexapod (xyzuv : list float)
| AgetLaserStatus (timeout : Z)
| Checkpoint (msg : string).

(** The script's view of the world: how many times it has been suspended, the
    read queue of [evt_offsetsPublish] (samples stamped with the suspension
    during which they arrived), and the operations performed so far. *)
Record World := mkWorld {
  clock : nat;
  queue : list (nat * Offsets);
  trace : list Action
}.

(** *** Reading a trace *)

Definition is_cmd_align (a : Action) : bool :=
  match a with CmdAlign _ _ _ => true | _ => false end.

Definition is_next (a : Action) : bool :=
  match a with NextOffsets _ _ => true | _ => false end.

Definition is_move (a : Action) : bool :=
  match a with OffsetM2Hexapod _ | OffsetCameraHexapod _ => true | _ => false end.

Definition count (p : Action → bool) (tr : list Action) : nat :=
  length (List.filter p tr).

Section Script.

(** [lsst.ts.idl.enums.LaserTracker.LaserStatus] is declared outside this
    repository: its type, its member [ON] and its [repr] are parameters. *)
Context {LaserStatus : Type} `{!EqDecision LaserStatus}.
Variable ON : LaserStatus.
Variable LaserStatus_repr : LaserStatus → string.

(** What the rest of the observatory does while the script is suspended at
    its [k]-th await. *)
Record Env := mkEnv {
  arrivals : nat → list Offsets;
  acked : nat → bool;
  laser_status : nat → option LaserStatus
}.

Variable env : Env.

Definition emit (a : Action) : M World unit :=
  λ w, (Ok tt, mkWorld (clock w) (queue w) (trace w ++ [a])).

Definition now : M World nat := λ w, (Ok (clock w), w).

(** An await that yields to the event loop: samples published meanwhile are
    appended to the read queue. *)
Definition suspend : M World nat :=
  λ w, (Ok (clock w),
        mkWorld (S (clock w))
                (queue w ++ map (pair (clock w)) (arrivals env (clock w)))
                (trace w)).

(** Awaiting a command's completion. *)
Definition await_ack : M World unit :=
  do k <- suspend;
  if acked env k then ret tt else raise AckError.

(** [evt_offsetsPublish.flush()]: synchronous, empties the read queue. *)
Definition evt_offsetsPublish_flush : M World unit :=
  do_ emit Flush;
  λ w, (Ok tt, mkWorld (clock w) [] (trace w)).

(** [cmd_align.set_start(target=..., timeout=...)]. *)
Definition cmd_align_set_start (tgt : option AlignComponent) (timeout : Z)
  : M World unit :=
  do k <- now;
  do_ emit (CmdAlign tgt timeout k);
  await_ack.

Definition pop : M World (option (nat * Offsets)) :=
  λ w, match queue w with
       | [] => (Ok None, w)
       | d :: rest => (Ok (Some d), mkWorld (clock w) rest (trace w))
       end.

(** [evt_offsetsPublish.next(flush=False, timeout=...)]: the oldest queued
    sample if there is one, else the first to arrive while waiting. *)
Definition evt_offsetsPublish_next (timeout : Z) : M World Offsets :=
  do queued <- pop;
  match queued with
  | Some d => do_ emit (NextOffsets timeout (Some d)); ret (snd d)
  | None =>
      do_ suspend;
      do arrived <- pop;
      match arrived with
      | Some d => do_ emit (NextOffsets timeout (Some d)); ret (snd d)
      | None => do_ emit (NextOffsets timeout None); raise TimeoutError
      end
  end.

Definition offset_m2_hexapod (xyzuv : list float) : M World unit :=
  do_ emit (OffsetM2Hexapod xyzuv); await_ack.

Definition offset_camera_hexapod (xyzuv : list float) : M World unit :=
  do_ emit (OffsetCameraHexapod xyzuv); await_ack.

Definition checkpoint (msg : string) : M World unit :=
  do_ emit (Checkpoint msg);
  do_ suspend;
  ret tt.

Definition get_align_func (self : Script)
  : M World (list float → M World unit) :=
  match target self with
  | Some M2 => ret offset_m2_hexapod
  | Some Camera => ret offset_camera_hexapod
  | None => raise (RuntimeError "Invalid target None.")
  end.

(** Lines 163-172: flush, command, one feedback read. *)
Definition read_feedback (self : Script) : M World Offsets :=
  do_ evt_offsetsPublish_flush;
  do_ cmd_align_set_start (target self) (timeout_align self);
  evt_offsetsPublish_next (timeout_std self).

Definition exhausted_message (self : Script) : string :=
  "Failed to align " +:+ format_target (target self) +:+ " after "
  +:+ pretty (max_iter self) +:+ " iterations.".

(** [for n_iter in range(self.max_iter)] with [iters] iterations left,
    followed by the [raise] after the loop. *)
Fixpoint align_loop (self : Script) (align_func : list float → M World unit)
    (iters : nat) (n_iter : Z) : M World unit :=
  match iters with
  | O => raise (RuntimeError (exhausted_message self))
  | S iters' =>
      do offset <- read_feedback self;
      let cs := corrections self offset in
      if any cs then
        do_ emit (LogInfo (ApplyingCorrections (n_iter + 1) (max_iter self) cs));
        do_ align_func (neg cs);
        align_loop self align_func iters' (n_iter + 1)
      else
        do_ emit (LogInfo (CorrectionsCompleted (n_iter + 1) (max_iter self)));
        ret tt
  end.

Definition align_target (self : Script) : M World unit :=
  do align_func <- get_align_func self;
  align_loop self align_func (Z.to_nat (max_iter self)) 0.

(** What the loop relies on from the function [get_align_func] returns: a
    hexapod move adds its own action to the trace, suspends the script once,
    and succeeds when it is acknowledged. *)
Definition is_hexapod_move (align_func : list float → M World unit) : Prop :=
  ∀ xyzuv w, ∃ a r,
    is_move a = true ∧
    align_func xyzuv w =
      (r, mkWorld (S (clock w))
            (queue w ++ map (pair (clock w)) (arrivals env (clock w)))
            (trace w ++ [a])) ∧
    r = if acked env (clock w) then Ok tt else Raise AckError.

(** Each of the next [iters] passes reads a sample whose correction vector
    is not all zero, and the hexapod move that follows is acknowledged. *)
Fixpoint never_converges (self : Script)
    (align_func : list float → M World unit) (iters : nat) (n_iter : Z)
    (w : World) : Prop :=
  match iters with
  | O => True
  | S iters' =>
      ∃ offset w1 w2,
        read_feedback self w = (Ok offset, w1) ∧
        any (corrections self offset) = true ∧
        align_func (neg (corrections self offset))
          (mkWorld (clock w1) (queue w1)
             (trace w1 ++
              [LogInfo (ApplyingCorrections (n_iter + 1) (max_iter self)
                          (corrections self offset))]))
        = (Ok tt, w2) ∧
        never_converges self align_func iters' (n_iter + 1) w2
  end.

Definition evt_laserStatus_aget (timeout : Z) : M World LaserStatus :=
  do_ emit (AgetLaserStatus timeout);
  do k <- suspend;
  match laser_status env k with
  | Some s => ret s
  | None => raise TimeoutError
  end.

Definition laser_status_message (s : LaserStatus) : string :=
  "Laser status is " +:+ LaserStatus_repr s +:+ ", expected "
  +:+ LaserStatus_repr ON +:+ ".".

Definition check_laser_status_ok (self : Script) : M World unit :=
  do status <- evt_laserStatus_aget (timeout_std self);
  if decide (status = ON) then ret tt
  else raise (RuntimeError (laser_status_message status)).

Definition run (self : Script) : M World unit :=
  do_ check_laser_status_ok self;
  do_ checkpoint "Starting alignment procedure.";
  do_ align_target self;
  checkpoint (format_target (target self) +:+ " aligned with laser tracker.").

End Script.

#[global] Instance AlignComponent_eq_dec : EqDecision AlignComponent.
Proof. solve_decision. Defined.

(** Every axis of a reading is within its tolerance ([<=], the complement of
    the strict test of the source on ordinary numbers). *)
Definition within_tolerance (self : Script) (offset : Offsets) : Prop :=
  (abs (dX offset) <=? tolerance_linear self)%float = true ∧
  (abs (dY offset) <=? tolerance_linear self)%float = true ∧
  (abs (dZ offset) <=? tolerance_linear self)%float = true ∧
  (abs (dRX offset) <=? tolerance_angular self)%float = true ∧
  (abs (dRY offset) <=? tolerance_angular self)%float = true.

(** *** A simulated laser tracker, for the examples *)

Inductive SimStatus := SimOff | SimOn.

#[global] Instance SimStatus_eq_dec : EqDecision SimStatus.
Proof. solve_decision. Defined.

Definition sim_repr (s : SimStatus) : string :=
  match s with
  | SimOff => "<LaserStatus.OFF: 1>"
  | SimOn => "<LaserStatus.ON: 2>"
  end.

(** A tracker that acknowledges every command and publishes [reading]
    during every suspension of the script. *)
Definition steady (reading : Offsets) (st : SimStatus) : Env :=
  {| arrivals := λ _, [reading];
     acked := λ _, true;
     laser_status := λ _, Some st |}.

Definition fresh : World := mkWorld 0 [] [].

(** The script configured for the secondary mirror with the tolerances the
    schema gives by default and [n] passes. *)
Definition m2_script (n : Z) : Script :=
  configure init (mkConfig n M2 1.0e-7 0.00138).

(** Readings: out of tolerance on [dRY] only; out of tolerance on [dRX]
    with a small [dRY]; and exactly at the tolerance on four axes. *)
Definition tilted : Offsets := mkOffsets 0 0 0 0 1.
Definition skewed : Offsets := mkOffsets 0 0 0 1 1.0e-9.
Definition at_tolerance : Offsets :=
  mkOffsets 1.0e-7 (-1.0e-7) 0 0.00138 (-0.00138).

End Align.

(** ** maintel/sync_dof.py *)

Module SyncDOF.

Definition STD_TIMEOUT : Z := 30.

(** An astropy [Time], in days; a [TimeDelta] is a difference of two, and
    [.jd] reads it in days. *)
Definition Time : Type := Qc.

(** A pandas data frame indexed by time: rows in the order the client
    returned them, each with the values of the selected fields. *)
Record Row := mkRow { index : Time; values : list float }.
Definition DataFrame : Type := list Row.

(** The values [run] binds to [image_end_time] and [last_state]: calling an
    [async def] method without [await] runs none of its body and yields a
    coroutine object. *)
Inductive PyObject :=
| PyTime (t : Time)
| PyArray (a : list float)
| PyCoroutine (func : string).

Inductive Action :=
| AssertFeasibility
| NewEfdClient (name : string)
| InfluxQuery (day seq : Z)
| SelectTimeSeries (topic : string) (fields : list string) (start end_ : Time)
| LogInfo (msg : string)
| Checkpoint (msg : string)
| AgetDegreeOfFreedom (timeout : Z)
| CmdOffsetDOF (value : list float).

(** The world of this script is the list of operations performed so far. *)
Definition Trace : Type := list Action.

(** [lsst_efd_client.EfdClient], as far as the script uses it. *)
Record EfdClient := mkEfdClient {
  select_time_series : string → list string → Time → Time → DataFrame;
  endReadout : Z → Z → DataFrame
}.

(** The collaborators of [run]. [dof_width] is the length of the [value]
    array of a fresh [cmd_offsetDOF.DataType()], fixed by the MTAOS interface
    definition, which is not part of this repository. *)
Record Env := mkEnv {
  feasible : bool;
  efd : string → EfdClient;
  degreeOfFreedom : option (list float);
  offsetDOF_acked : bool;
  dof_width : nat
}.

Record Script := mkScript { day : Z; seq : Z }.

Definition emit (a : Action) : M Trace unit := λ tr, (Ok tt, tr ++ [a]).

Definition lift {A} (r : Result A) : M Trace A := λ tr, (r, tr).

(** [[f"aggregatedDoF{i}" for i in range(50)]] *)
Definition topics : list string :=
  map (λ i : nat, "aggregatedDoF" +:+ pretty i) (List.seq 0 50).

Definition get_image_time (client : EfdClient) (day seq : Z) : M Trace Time :=
  do_ emit (InfluxQuery day seq);
  match endReadout client day seq with
  | row :: _ => ret (index row)
  | [] => raise IndexError
  end.

(** [TimeDelta(1, format="jd")] *)
Definition lookback_interval : Time := 1%Qc.
Definition max_lookback_days : Qc := Qc_of_Z 7.

(** [np.zeros(50)] *)
Definition zeros (n : nat) : list float := repeat 0%float n.

Definition client_select_time_series (client : EfdClient) (topic : string)
    (fields : list string) (start end_ : Time) : M Trace DataFrame :=
  do_ emit (SelectTimeSeries topic fields start end_);
  ret (select_time_series client topic fields start end_).

Definition no_data_message : string :=
  "No data found within the specified range and maximum lookback period.".

(** The [while True] loop of [get_last_issued_state], lines 151-170, with
    [current_end] as its state. [fuel] bounds the number of passes; [None]
    is returned only when it runs out. A pass whose frame is not empty
    returns the values of the frame's last row ([state.iloc[[-1]]]). *)
Fixpoint lookback_loop (fuel : nat) (client : EfdClient)
    (time current_end : Time) : M Trace (option (list float)) :=
  match fuel with
  | O => ret None
  | S fuel' =>
      let current_start := (current_end - lookback_interval)%Qc in
      do state <- client_select_time_series client
                    "lsst.sal.MTAOS.logevent_degreeOfFreedom" topics
                    current_start current_end;
      match last state with
      | Some row => ret (Some (values row))
      | None =>
          let current_end := current_start in
          if decide (max_lookback_days < time - current_end)%Qc then
            do_ emit (LogInfo no_data_message);
            ret (Some (zeros 50))
          else lookback_loop fuel' client time current_end
      end
  end.

Definition get_last_issued_state (fuel : nat) (client : EfdClient)
    (time : Time) : M Trace (option (list float)) :=
  lookback_loop fuel client time time.

(** [enumerate(last_state)] *)
Definition enumerate (o : PyObject) : Result (list float) :=
  match o with
  | PyArray a => Ok a
  | PyCoroutine _ => Raise (TypeError "'coroutine' object is not iterable")
  | PyTime _ => Raise (TypeError "'Time' object is not iterable")
  end.

(** Lines 187-188: [dof_data.value[i] = dof_absolute - aggregatedDoF[i]] for
    the items of [last_state] from position [i] on. Reading or writing past
    the end of a list raises [IndexError]. *)
Fixpoint dof_offsets (i : nat) (last_state aggregatedDoF value : list float)
  : Result (list float) :=
  match last_state with
  | [] => Ok value
  | dof_absolute :: rest =>
      match aggregatedDoF !! i with
      | None => Raise IndexError
      | Some current =>
          if decide (i < length value)
          then dof_offsets (S i) rest aggregatedDoF
                 (<[i := (dof_absolute - current)%float]> value)
          else Raise IndexError
      end
  end.

(** [cmd_offsetDOF.DataType()]: a zero vector of the interface's width. *)
Definition DataType (env : Env) : list float := zeros (dof_width env).

(** [assert_feasibility] is inherited from [ApplyDOF], whose module is not
    among the sources: it either returns or raises, as [feasible] says. *)
Definition assert_feasibility (env : Env) : M Trace unit :=
  do_ emit AssertFeasibility;
  if feasible env then ret tt else raise (RuntimeError "not feasible").

Definition checkpoint (msg : string) : M Trace unit := emit (Checkpoint msg).

Definition evt_degreeOfFreedom_aget (env : Env) (timeout : Z)
  : M Trace (list float) :=
  do_ emit (AgetDegreeOfFreedom timeout);
  match degreeOfFreedom env with
  | Some v => ret v
  | None => raise TimeoutError
  end.

Definition cmd_offsetDOF_start (env : Env) (value : list float)
  : M Trace unit :=
  do_ emit (CmdOffsetDOF value);
  if offsetDOF_acked env then ret tt else raise AckError.

(** [run], lines 173-189. Lines 179 and 180 call the two [async def] methods
    without [await]. *)
Definition run (env : Env) (self : Script) : M Trace unit :=
  do_ assert_feasibility env;
  do_ emit (NewEfdClient "summit_efd");
  let image_end_time := PyCoroutine "get_image_time" in
  let last_state := PyCoroutine "get_last_issued_state" in
  do_ checkpoint "Setting DOF...";
  do current_dof <- evt_degreeOfFreedom_aget env STD_TIMEOUT;
  let dof_data := DataType env in
  do items <- lift (enumerate last_state);
  do value <- lift (dof_offsets 0 items current_dof dof_data);
  cmd_offsetDOF_start env value.

(** Modelled from the spec: the archive query interface
    [query_time_series(series_name, fields, window)], which returns the
    ordered sequence of the archived samples inside the window. The archive
    is a frame in time order and the query keeps the rows of the window. The
    window always contains its start; [closed_end] says whether it contains
    its end ([[start, end]]) or not ([[start, end)]). *)
Definition in_window (closed_end : bool) (start end_ : Time) (r : Row) : Prop :=
  (start ≤ index r)%Qc ∧
  if closed_end then (index r ≤ end_)%Qc else (index r < end_)%Qc.

#[global] Instance in_window_dec closed_end start end_ r :
  Decision (in_window closed_end start end_ r).
Proof. unfold in_window. destruct closed_end; apply _. Defined.

Definition query_time_series (closed_end : bool) (archive : DataFrame)
    (start end_ : Time) : DataFrame :=
  filter (in_window closed_end start end_) archive.

Definition archive_client (closed_end : bool) (archive : DataFrame)
  : EfdClient :=
  {| select_time_series := λ _ _, query_time_series closed_end archive;
     endReadout := λ _ _, [] |}.

(** The archive lists its samples oldest first. *)
Definition time_ordered (archive : DataFrame) : Prop :=
  StronglySorted (λ r1 r2, (index r1 ≤ index r2)%Qc) archive.

(** The windows the loop visits, counted from 1: the [k]-th one reaches from
    [k] days before [t] to [k - 1] days before [t]. *)
Definition days (k : nat) : Qc := Qc_of_Z (Z.of_nat k).
Definition window_start (t : Time) (k : nat) : Time := (t - days k)%Qc.
Definition window_end (t : Time) (k : nat) : Time := (t - days (k - 1))%Qc.

Definition window_query (t : Time) (k : nat) : Action :=
  SelectTimeSeries "lsst.sal.MTAOS.logevent_degreeOfFreedom" topics
    (window_start t k) (window_end t k).

(** The queries for the windows 1, ..., [n], in this order. *)
Definition window_queries (t : Time) (n : nat) : Trace :=
  map (window_query t) (List.seq 1 n).

(** What the client answers for the [k]-th window. *)
Definition window_frame (client : EfdClient) (t : Time) (k : nat) : DataFrame :=
  select_time_series client "lsst.sal.MTAOS.logevent_degreeOfFreedom" topics
    (window_start t k) (window_end t k).

(** The operations [run] is there to perform: the archive queries and the
    offset command. *)
Definition is_query_or_offset (a : Action) : bool :=
  match a with
  | InfluxQuery _ _ | SelectTimeSeries _ _ _ _ | CmdOffsetDOF _ => true
  | _ => false
  end.

(** *** Archives for the examples *)

Definition ones (n : nat) : list float := repeat 1%float n.

(** A reference time, and archives with one sample 2.5, 7.5 and 9.5 days
    before it. *)
Definition t20 : Time := Qc_of_Z 20.
Definition archive_3_days : DataFrame := [mkRow (Q2Qc (35 # 2)) (ones 50)].
Definition archive_8_days : DataFrame := [mkRow (Q2Qc (25 # 2)) (ones 50)].
Definition archive_10_days : DataFrame := [mkRow (Q2Qc (21 # 2)) (ones 50)].

Definition sim_env (archive : DataFrame) (current : list float) : Env :=
  {| feasible := true;
     efd := λ _, archive_client true archive;
     degreeOfFreedom := Some current;
     offsetDOF_acked := true;
     dof_width := 50 |}.

End SyncDOF.

(** ** More on the alignment script: what a trace shows *)

Module AlignTrace.
Import Align.

(** Every hexapod move in a trace goes to the hexapod of the target [tgt],
    comes directly after the log record of the corrections, and carries the
    negated corrections of that record, five numbers. [prev] is the action
    before the trace. *)
Fixpoint moves_follow_log (tgt : option AlignComponent) (prev : option Action)
    (tr : list Action) : Prop :=
  match tr with
  | [] => True
  | a :: tr' =>
      match a with
      | OffsetM2Hexapod xyzuv =>
          tgt = Some M2 ∧
          ∃ n total cs,
            prev = Some (LogInfo (ApplyingCorrections n total cs)) ∧
            xyzuv = neg cs ∧ length xyzuv = 5
      | OffsetCameraHexapod xyzuv =>
          tgt = Some Camera ∧
          ∃ n total cs,
            prev = Some (LogInfo (ApplyingCorrections n total cs)) ∧
            xyzuv = neg cs ∧ length xyzuv = 5
      | _ => True
      end ∧ moves_follow_log tgt (Some a) tr'
  end.

(** The hexapod move of a target: its action and its function. *)
Definition hexapod_action (c : AlignComponent) (xyzuv : list float) : Action :=
  match c with
  | M2 => OffsetM2Hexapod xyzuv
  | Camera => OffsetCameraHexapod xyzuv
  end.

Definition hexapod_func {LaserStatus : Type} (env : @Env LaserStatus)
    (c : AlignComponent) : list float → M World unit :=
  match c with
  | M2 => offset_m2_hexapod env
  | Camera => offset_camera_hexapod env
  end.

(** *** The passes of the loop *)

(** What a pass got back from the laser tracker after its command: no
    acknowledgement, no sample before the timeout of [next], or the sample
    [offset], delivered while the script was suspended for the [s]-th
    time. *)
Inductive Feedback :=
| NotAcked
| TimedOut
| Sample (s : nat) (offset : Offsets).

(** A pass: the number of suspensions of the script when the align command
    was issued, and what came back. *)
Record Pass := mkPass { issued : nat; feedback : Feedback }.

(** The operations of pass number [n] on the target [c], lines 163-194:
    the flush, then the align command, then - unless the command failed -
    one read of the offsets, then the log record of the pass and, when the
    corrections are not all zero, the move. *)
Definition pass_trace (self : Script) (c : AlignComponent) (n : Z) (p : Pass)
  : list Action :=
  Flush :: CmdAlign (target self) (timeout_align self) (issued p) ::
  match feedback p with
  | NotAcked => []
  | TimedOut => [NextOffsets (timeout_std self) None]
  | Sample s offset =>
      let cs := corrections self offset in
      NextOffsets (timeout_std self) (Some (s, offset)) ::
      if any cs then
        [LogInfo (ApplyingCorrections n (max_iter self) cs);
         hexapod_action c (neg cs)]
      else [LogInfo (CorrectionsCompleted n (max_iter self))]
  end.

(** The passes numbered [n], [n + 1], ..., one after the other. *)
Fixpoint passes_trace (self : Script) (c : AlignComponent) (n : Z)
    (ps : list Pass) : list Action :=
  match ps with
  | [] => []
  | p :: ps' => pass_trace self c n p ++ passes_trace self c (n + 1) ps'
  end.

(** The feedback of a pass is what the tracker did from the command on: the
    command was not acknowledged; or it was, and the sample is the first one
    published while the command was awaited or, if there was none, the first
    one published during the wait of [next]; or nothing was published in
    either. A sample queued before the command is none of these. *)
Definition since_command {LaserStatus : Type} (env : @Env LaserStatus)
    (p : Pass) : Prop :=
  let k := issued p in
  match feedback p with
  | NotAcked => acked env k = false
  | TimedOut =>
      acked env k = true ∧ arrivals env k = [] ∧ arrivals env (S k) = []
  | Sample s offset =>
      acked env k = true ∧
      ((s = k ∧ head (arrivals env k) = Some offset) ∨
       (s = S k ∧ arrivals env k = [] ∧
        head (arrivals env (S k)) = Some offset))
  end.

(** Pass [q] comes after pass [p]: [p] read a sample whose corrections are
    not all zero, its move was acknowledged, and the command of [q] was
    issued after that move. *)
Definition goes_on {LaserStatus : Type} (env : @Env LaserStatus)
    (self : Script) (p q : Pass) : Prop :=
  ∃ s offset,
    feedback p = Sample s offset ∧
    any (corrections self offset) = true ∧
    acked env (S s) = true ∧
    issued q = S (S s).

(** Pass [p] leaves the loop: an exception of the command, of the read or
    of the move, or corrections that are all zero. *)
Definition ends_loop {LaserStatus : Type} (env : @Env LaserStatus)
    (self : Script) (p : Pass) : Prop :=
  match feedback p with
  | NotAcked | TimedOut => True
  | Sample s offset =>
      any (corrections self offset) = false ∨ acked env (S s) = false
  end.

(** A world after four suspensions, with a sample out of tolerance left in
    the read queue. *)
Definition stale : World := mkWorld 4 [(0, skewed)] [].

(** A tracker that acknowledges nothing and publishes nothing, and one
    that acknowledges every command and publishes nothing. *)
Definition deaf (st : SimStatus) : Env :=
  {| arrivals := λ _, [];
     acked := λ _, false;
     laser_status := λ _, Some st |}.

Definition mute (st : SimStatus) : Env :=
  {| arrivals := λ _, [];
     acked := λ _, true;
     laser_status := λ _, Some st |}.

(** A reading that is not a number on the first four axes. *)
Definition unreadable : Offsets := mkOffsets nan nan nan nan 1.

End AlignTrace.

(** ** maintel/set_dof.py *)

Module SetDOF.

Definition STD_TIMEOUT : Z := 30.

Definition EFD_SERVER_URL : gmap string string :=
  {[ "tucson" := "tts_efd"; "base" := "base_efd"; "summit" := "summit_efd" ]}.

Inductive Action :=
| AssertFeasibility
| NewEfdClient (name : string)
| InfluxQuery (day seq : Z)
| SelectTimeSeries (topic : string) (fields : list string)
    (start end_ : SyncDOF.Time)
| LogWarning (msg : string)
| Checkpoint (msg : string)
| AgetDegreeOfFreedom (timeout : Z)
| CmdOffsetDOF (value : list float).

Definition Trace : Type := list Action.

(** The EFD client: the time series of [SyncDOF], and the influx query for
    the end of readout of an image, which may raise. *)
Record EfdClient := mkEfdClient {
  series : SyncDOF.EfdClient;
  influx_query : Z → Z → Result (list SyncDOF.Row)
}.

(** [day] and [seq] are [None] unless the configuration gave both; [dofs]
    is what the configuration of [ApplyDOF] left in [self.dofs]. *)
Record Script := mkScript {
  day : option Z;
  seq : option Z;
  dofs : SyncDOF.PyObject
}.

Record Env := mkEnv {
  feasible : bool;
  LSST_SITE : option string;
  efd : string → EfdClient;
  degreeOfFreedom : option (list float);
  offsetDOF_acked : bool;
  dof_width : nat
}.

Definition emit (a : Action) : M Trace unit := λ tr, (Ok tt, tr ++ [a]).

Definition lift {A} (r : Result A) : M Trace A := λ tr, (r, tr).

(** [try: body except Exception: handler] *)
Definition try_except {A} (body : M Trace A) (handler : Exception → M Trace A)
  : M Trace A :=
  λ tr, match body tr with
        | (Ok a, tr') => (Ok a, tr')
        | (Raise e, tr') => handler e tr'
        end.

Definition image_time_error (day seq : Z) : string :=
  "Error querying time for image " +:+ pretty day +:+ ":" +:+ pretty seq
  +:+ ".".

(** Lines 126-135: the query and [end_time.iloc[0]] inside [try], every
    exception replaced by the [RuntimeError]. *)
Definition get_image_time (client : EfdClient) (day seq : Z)
  : M Trace SyncDOF.Time :=
  try_except
    (do_ emit (InfluxQuery day seq);
     do end_time <- lift (influx_query client day seq);
     match end_time with
     | row :: _ => ret (SyncDOF.index row)
     | [] => raise IndexError
     end)
    (λ _, raise (RuntimeError (image_time_error day seq))).

(** Lines 151-165: one query of the day before [end_time]. *)
Definition get_last_issued_state (client : EfdClient)
    (end_time : SyncDOF.Time) : M Trace (list float) :=
  let lookback_interval := SyncDOF.lookback_interval in
  do_ emit (SelectTimeSeries "lsst.sal.MTAOS.logevent_degreeOfFreedom"
              SyncDOF.topics (end_time - lookback_interval)%Qc end_time);
  let state :=
    SyncDOF.select_time_series (series client)
      "lsst.sal.MTAOS.logevent_degreeOfFreedom" SyncDOF.topics
      (end_time - lookback_interval)%Qc end_time in
  match last state with
  | Some row => ret (SyncDOF.values row)
  | None =>
      do_ emit (LogWarning "No state found.");
      ret (SyncDOF.zeros 50)
  end.

Definition assert_feasibility (env : Env) : M Trace unit :=
  do_ emit AssertFeasibility;
  if feasible env then ret tt else raise (RuntimeError "not feasible").

Definition evt_degreeOfFreedom_aget (env : Env) (timeout : Z)
  : M Trace (list float) :=
  do_ emit (AgetDegreeOfFreedom timeout);
  match degreeOfFreedom env with
  | Some v => ret v
  | None => raise TimeoutError
  end.

Definition cmd_offsetDOF_start (env : Env) (value : list float)
  : M Trace unit :=
  do_ emit (CmdOffsetDOF value);
  if offsetDOF_acked env then ret tt else raise AckError.

Section Run.

(** Python's [repr] of a string, used by [f"{site=}"]. *)
Variable repr : string → string.

Definition no_url_message (site : string) : string :=
  "No image server url for site=" +:+ repr site +:+ ".".

(** Lines 178-191: with [day] and [seq] given, pick the EFD of the site and
    bind [self.dofs] to the result of the call at line 191, which is not
    awaited; otherwise leave [self.dofs] as configured. *)
Definition locate_dofs (env : Env) (self : Script)
  : M Trace SyncDOF.PyObject :=
  match day self, seq self with
  | Some _, Some _ =>
      match LSST_SITE env with
      | None =>
          raise (RuntimeError
                   ("Unable to connect to EFD: "
                    +:+ "LSST_SITE environment variable not defined"))
      | Some site =>
          match EFD_SERVER_URL !! site with
          | None =>
              raise (RuntimeError
                       ("Unable to connect to EFD: " +:+ no_url_message site))
          | Some url =>
              do_ emit (NewEfdClient url);
              let image_end_time := SyncDOF.PyCoroutine "get_image_time" in
              ret (SyncDOF.PyCoroutine "get_last_issued_state")
          end
      end
  | _, _ => ret (dofs self)
  end.

Definition run (env : Env) (self : Script) : M Trace unit :=
  do_ assert_feasibility env;
  do dofs <- locate_dofs env self;
  do_ emit (Checkpoint "Setting DOF...");
  do current_dof <- evt_degreeOfFreedom_aget env STD_TIMEOUT;
  let dof_data := SyncDOF.zeros (dof_width env) in
  do items <- lift (SyncDOF.enumerate dofs);
  do value <- lift (SyncDOF.dof_offsets 0 items current_dof dof_data);
  cmd_offsetDOF_start env value.

End Run.

Definition is_query_or_offset (a : Action) : bool :=
  match a with
  | InfluxQuery _ _ | SelectTimeSeries _ _ _ _ | CmdOffsetDOF _ => true
  | _ => false
  end.

(** *** Fixtures *)

Definition quote (s : string) : string := "'" +:+ s +:+ "'".

Definition failing_client : EfdClient :=
  {| series := SyncDOF.archive_client true [];
     influx_query := λ _ _, Raise TimeoutError |}.

Definition sim_env (site : option string) (current : list float) : Env :=
  {| feasible := true;
     LSST_SITE := site;
     efd := λ _, failing_client;
     degreeOfFreedom := Some current;
     offsetDOF_acked := true;
     dof_width := 50 |}.

End SetDOF.

(** ** offline_group.py, and the [ignore] loop of [SyncDOF.configure] *)

Module OfflineGroup.

(** [Offline] carries the [check] namespace of the group at the moment
    [self.group.offline()] is called. *)
Inductive Action :=
| LogWarning (comp : string)
| LogDebug (comp : string)
| Offline (check : gmap string bool).

(** [self.group.check], one flag per component, and the operations so far. *)
Record World := mkWorld {
  check : gmap string bool;
  trace : list Action
}.

Definition emit (a : Action) : M World unit :=
  λ w, (Ok tt, mkWorld (check w) (trace w ++ [a])).

(** [setattr(self.group.check, comp, False)] *)
Definition setattr_check (comp : string) (value : bool) : M World unit :=
  λ w, (Ok tt, mkWorld (<[comp := value]> (check w)) (trace w)).

(** The loop over the names to ignore: [offline_group.py] lines 105-113 and
    [sync_dof.py] lines 96-104. A name that is not a component of the group
    gets a warning; a component gets a debug record and its flag cleared. *)
Fixpoint ignore_loop (components ignore : list string) : M World unit :=
  match ignore with
  | [] => ret tt
  | comp :: rest =>
      do_ (if bool_decide (comp ∉ components) then emit (LogWarning comp)
           else do_ emit (LogDebug comp); setattr_check comp false);
      ignore_loop components rest
  end.

(** [self.group.offline()]: it may raise. *)
Definition group_offline (succeeds : bool) : M World unit :=
  do_ (λ w, (Ok tt, mkWorld (check w) (trace w ++ [Offline (check w)])));
  if succeeds then ret tt else raise (RuntimeError "offline failed").

(** [run]: [ignore] is [None] when the script has no configuration or the
    configuration has no [ignore] attribute. *)
Definition run (components : list string) (ignore : option (list string))
    (succeeds : bool) : M World unit :=
  do_ match ignore with
      | Some names => ignore_loop components names
      | None => ret tt
      end;
  group_offline succeeds.

(** The record the loop leaves for a name. *)
Definition ignore_record (components : list string) (comp : string) : Action :=
  if bool_decide (comp ∉ components) then LogWarning comp else LogDebug comp.

End OfflineGroup.

(** ** utils.py *)

Module Utils.

(** An argument that is a single value (a number, a string) or a sequence
    of values. *)
Inductive Arg (A : Type) :=
| Scalar (a : A)
| Sequence (l : list A).
Arguments Scalar {A} a.
Arguments Sequence {A} l.

(** [ValueError] carries the length of the input and the recurrences asked
    for, the two numbers of its message. *)
Inductive Error :=
| ValueError (len : nat) (recurrences : Z)
| GridError (msg : string).

(** [[value] * recurrences]: empty when [recurrences] is not positive. *)
Definition times {A} (a : A) (recurrences : Z) : list A :=
  repeat a (Z.to_nat recurrences).

Definition format_as_list {A} (value : Arg A) (recurrences : Z)
  : Error + list A :=
  match value with
  | Sequence l =>
      if bool_decide (Z.of_nat (length l) ≠ recurrences)
      then inl (ValueError (length l) recurrences)
      else inr l
  | Scalar a => inr (times a recurrences)
  end.

Definition grid_message (n1 n2 : nat) : string :=
  "Array sizes must be the same. Got " +:+ pretty n1 +:+ " and "
  +:+ pretty n2 +:+ ".".

(** [RuntimeError] of [format_grid] is [GridError]. *)
Definition format_grid {A} (axis1 axis2 : Arg A)
  : Error + (list A * list A) :=
  match axis1, axis2 with
  | Scalar a1, Scalar a2 => inr ([a1], [a2])
  | Scalar a1, Sequence l2 =>
      match format_as_list (Scalar a1) (Z.of_nat (length l2)) with
      | inr l1 => inr (l1, l2)
      | inl e => inl e
      end
  | Sequence l1, Scalar a2 =>
      match format_as_list (Scalar a2) (Z.of_nat (length l1)) with
      | inr l2 => inr (l1, l2)
      | inl e => inl e
      end
  | Sequence l1, Sequence l2 =>
      if bool_decide (length l1 ≠ length l2)
      then inl (GridError (grid_message (length l1) (length l2)))
      else inr (l1, l2)
  end.

Definition S3_INSTANCES : gmap string string :=
  {[ "tucson" := "tuc"; "base" := "ls"; "summit" := "cp" ]}.

(** The arguments [get_s3_bucket] gives to [salobj.AsyncS3Bucket]. *)
Record Bucket := mkBucket {
  name : string;
  domock : bool;
  create : bool
}.

Section S3.

(** [salobj.AsyncS3Bucket.make_bucket_name] is not part of the repository. *)
Variable make_bucket_name : string → string.

(** [site] is [os.environ.get("LSST_SITE")]. *)
Definition get_s3_bucket (site : option string) : Bucket :=
  let do_mock :=
    match site with
    | Some s => bool_decide (S3_INSTANCES !! s = None)
    | None => true
    end in
  let s3instance :=
    match site with
    | Some s => default "mock" (S3_INSTANCES !! s)
    | None => "mock"
    end in
  let s3bucket_name := make_bucket_name s3instance in
  mkBucket s3bucket_name do_mock do_mock.

Definition s3instance_of (site : option string) : string :=
  match site with
  | Some s => default "mock" (S3_INSTANCES !! s)
  | None => "mock"
  end.

End S3.

(** *** [find_running_instances] *)

(** [hb.salIndex if hasattr(hb, "salIndex") else 0] *)
Definition sal_index (hb : option Z) : Z := default 0%Z hb.

(** The [heartbeats] dictionary, its keys in insertion order:
    [heartbeats[sal_index] = 1] for a new key, [+= 1] for a known one. *)
Fixpoint bump (idx : Z) (heartbeats : list (Z * Z)) : list (Z * Z) :=
  match heartbeats with
  | [] => [(idx, 1%Z)]
  | (k, v) :: rest =>
      if decide (k = idx) then (k, (v + 1)%Z) :: rest
      else (k, v) :: bump idx rest
  end.

(** [all([value < min_heartbeat for value in heartbeats.values()])] *)
Definition all_below (min_heartbeat : Z) (heartbeats : list (Z * Z)) : bool :=
  forallb (λ kv, bool_decide (kv.2 < min_heartbeat)%Z) heartbeats.

(** The [while] loop, lines 243-253. [hbs] are the heartbeats that arrive
    before the first timeout of [next], each with its [salIndex] if it has
    one; when they are used up, [next] times out and the loop breaks. The
    result is the dictionary and the number of heartbeats read. *)
Fixpoint heartbeat_loop (min_heartbeat : Z) (hbs : list (option Z))
    (heartbeats : list (Z * Z)) (read : nat) : list (Z * Z) * nat :=
  if all_below min_heartbeat heartbeats then
    match hbs with
    | [] => (heartbeats, read)
    | hb :: rest =>
        heartbeat_loop min_heartbeat rest (bump (sal_index hb) heartbeats)
          (S read)
    end
  else (heartbeats, read).

Definition find_running_instances (component : string) (min_heartbeat : Z)
    (hbs : list (option Z)) : string * list Z :=
  let heartbeats := (heartbeat_loop min_heartbeat hbs [] 0).1 in
  let indices := map fst heartbeats in
  (component, indices).

(** How many of the heartbeats [find_running_instances] reads. *)
Definition heartbeats_read (min_heartbeat : Z) (hbs : list (option Z)) : nat :=
  (heartbeat_loop min_heartbeat hbs [] 0).2.

(** How often an index occurs among heartbeats. *)
Definition occurrences (idx : Z) (hbs : list (option Z)) : Z :=
  Z.of_nat (length (filter (λ hb, sal_index hb = idx) hbs)).

(** The dictionary tallies the heartbeats [pre]: its keys are distinct, and
    it holds a pair exactly for the indices that occur, with their number
    of occurrences. *)
Definition tallies (pre : list (option Z)) (heartbeats : list (Z * Z)) : Prop :=
  NoDup (map fst heartbeats) ∧
  ∀ k v, (k, v) ∈ heartbeats ↔ v = occurrences k pre ∧ (0 < v)%Z.

End Utils.

(** ** auxtel/atcam_take_image.py: [configure] *)

Module ATCamTakeImage.

(** The texts of the three errors of [configure], each with the argument
    the source interpolates into it:
    [f"exp_times={exp_times}; must provide at least one value"],
    [f"nimages={nimages} must be > 0"] and
    [f"Exposure times {exp_times} must be >= 0"]. *)
Inductive Message :=
| NoExpTimes (exp_times : Utils.Arg float)
| NimagesNotPositive (nimages : Z)
| NegativeExpTimes (exp_times : Utils.Arg float).

Inductive Error :=
| ValueError (msg : Message).

(** [np.minimum] on two floats: a NaN wins. *)
Definition minimum (a b : float) : float :=
  if is_nan a then a
  else if is_nan b then b
  else if (b <? a)%float then b else a.

(** [np.min] of a list that is not empty. *)
Definition np_min (l : list float) : float :=
  match l with
  | [] => nan
  | x :: rest => fold_left minimum rest x
  end.

(** Lines 79-89 of [configure]: the list of exposure times. *)
Definition configure (nimages : Z) (exp_times : Utils.Arg float)
  : Error + list float :=
  match
    match exp_times with
    | Utils.Sequence l =>
        if bool_decide (length l = 0)
        then inl (ValueError (NoExpTimes exp_times))
        else inr l
    | Utils.Scalar t =>
        if bool_decide (nimages < 1)%Z
        then inl (ValueError (NimagesNotPositive nimages))
        else inr (Utils.times t nimages)
    end
  with
  | inl e => inl e
  | inr self_exp_times =>
      if (np_min self_exp_times <? 0)%float
      then inl (ValueError (NegativeExpTimes exp_times))
      else inr self_exp_times
  end.

End ATCamTakeImage.
(** ** IEEE comparison facts used by the tolerance gates *)

(** [a <= b] excludes [b < a], also for infinities; a NaN satisfies neither. *)
Lemma SFleb_SFltb_false a b : SFleb a b = true → SFltb b a = false.
Proof.
  unfold SFltb, SFleb.
  destruct a as [s|s| |s m e], b as [s'|s'| |s' m' e']; simpl;
    try discriminate; try reflexivity;
    destruct s; try destruct s'; simpl; try discriminate; try reflexivity.
  all: destruct (Z.compare e e') eqn:E;
    rewrite (Z.compare_antisym e e'), E; simpl;
    try discriminate; try reflexivity.
  all: change (PosDef.Pos.compare_cont Eq m' m) with (Pos.compare m' m);
    change (PosDef.Pos.compare_cont Eq m m') with (Pos.compare m m');
    rewrite (Pos.compare_antisym m m'); destruct (Pos.compare m m'); simpl;
    try discriminate; try reflexivity.
Qed.

Lemma float_leb_ltb_false (x y : float) :
  PrimFloat.leb x y = true → PrimFloat.ltb y x = false.
Proof. rewrite ltb_spec, leb_spec. apply SFleb_SFltb_false. Qed.

(** A magnitude above a non-negative threshold belongs to a nonzero number. *)
Lemma SF_above_threshold_nonzero t x :
  SFleb (S754_zero false) t = true → SFltb t (SFabs x) = true →
  SFeqb x (S754_zero false) = false.
Proof.
  unfold SFleb, SFltb, SFeqb.
  destruct x as [s|s| |s m e], t as [s'|s'| |s' m' e']; simpl;
    try discriminate; try reflexivity; try (destruct s; reflexivity);
    try destruct s'; simpl; try discriminate; try (destruct s; reflexivity).
Qed.

Lemma float_above_threshold_nonzero (tol x : float) :
  (0 <=? tol)%float = true → (tol <? abs x)%float = true →
  (x =? 0)%float = false.
Proof.
  rewrite leb_spec, ltb_spec, FloatAxioms.eqb_spec, abs_spec.
  change (Prim2SF 0) with (S754_zero false).
  apply SF_above_threshold_nonzero.
Qed.

(** * The alignment script *)

Module AlignSpec.
Import Align AlignTrace.

Section Facts.

Context {LaserStatus : Type} `{!EqDecision LaserStatus}.
Variable ON : LaserStatus.
Variable LaserStatus_repr : LaserStatus → string.
Variable env : @Env LaserStatus.

(** One pass through lines 163-172, case by case: the command is refused, a
    sample arrives while the command is awaited, a sample arrives during the
    wait of [next], or the wait times out. *)
Lemma read_feedback_eq (self : Script) (w : World) :
  read_feedback env self w =
  let c := clock w in
  let tr := trace w ++ [Flush; CmdAlign (target self) (timeout_align self) c] in
  if acked env c then
    match arrivals env c with
    | d :: rest =>
        (Ok d, mkWorld (S c) (map (pair c) rest)
                 (tr ++ [NextOffsets (timeout_std self) (Some (c, d))]))
    | [] =>
        match arrivals env (S c) with
        | d :: rest =>
            (Ok d, mkWorld (S (S c)) (map (pair (S c)) rest)
                     (tr ++ [NextOffsets (timeout_std self) (Some (S c, d))]))
        | [] =>
            (Raise TimeoutError,
             mkWorld (S (S c)) [] (tr ++ [NextOffsets (timeout_std self) None]))
        end
    end
  else (Raise AckError, mkWorld (S c) (map (pair c) (arrivals env c)) tr).
Proof.
  unfold read_feedback, evt_offsetsPublish_flush, cmd_align_set_start,
    evt_offsetsPublish_next, await_ack, suspend, now, pop, emit, bind, ret,
    raise; simpl.
  destruct (acked env (clock w)); cbn; [|by rewrite <- !app_assoc].
  destruct (arrivals env (clock w)) as [|d rest]; cbn.
  - destruct (arrivals env (S (clock w))) as [|d rest]; cbn;
      by rewrite <- !app_assoc.
  - by rewrite <- !app_assoc.
Qed.

(** A successful pass adds exactly flush, command, read to the trace, and
    the sample read arrived at or after the suspension of the command. *)
Lemma read_feedback_ok (self : Script) (w w1 : World) (offset : Offsets) :
  read_feedback env self w = (Ok offset, w1) →
  ∃ s, clock w ≤ s ∧ s < clock w1 ∧
       trace w1 = trace w ++
         [Flush; CmdAlign (target self) (timeout_align self) (clock w);
          NextOffsets (timeout_std self) (Some (s, offset))].
Proof.
  rewrite read_feedback_eq; cbn.
  destruct (acked env (clock w)); [|discriminate].
  destruct (arrivals env (clock w)) as [|d rest].
  - destruct (arrivals env (S (clock w))) as [|d rest]; [discriminate|].
    intros [= <- <-]; cbn. exists (S (clock w)).
    rewrite <- app_assoc. split_and!; [lia | lia | done].
  - intros [= <- <-]; cbn. exists (clock w).
    rewrite <- app_assoc. split_and!; [lia | lia | done].
Qed.

(** The body of the [for] loop, one pass unfolded. *)
Lemma align_loop_S (self : Script) (align_func : list float → M World unit)
    (iters : nat) (n_iter : Z) (w : World) :
  align_loop env self align_func (S iters) n_iter w =
  match read_feedback env self w with
  | (Ok offset, w1) =>
      let cs := corrections self offset in
      if any cs then
        match
          align_func (neg cs)
            (mkWorld (clock w1) (queue w1)
               (trace w1 ++
                [LogInfo (ApplyingCorrections (n_iter + 1) (max_iter self) cs)]))
        with
        | (Ok _, w2) => align_loop env self align_func iters (n_iter + 1) w2
        | (Raise e, w2) => (Raise e, w2)
        end
      else
        (Ok tt,
         mkWorld (clock w1) (queue w1)
           (trace w1 ++
            [LogInfo (CorrectionsCompleted (n_iter + 1) (max_iter self))]))
  | (Raise e, w1) => (Raise e, w1)
  end.
Proof.
  cbn [align_loop]. unfold bind at 1.
  destruct (read_feedback env self w) as [[offset|e] w1]; [|done].
  cbv zeta. destruct (any (corrections self offset)); reflexivity.
Qed.

Lemma offset_m2_hexapod_move : is_hexapod_move env (offset_m2_hexapod env).
Proof.
  intros xyzuv w. exists (OffsetM2Hexapod xyzuv).
  unfold offset_m2_hexapod, await_ack, suspend, emit, bind, ret, raise; cbn.
  destruct (acked env (clock w)); eauto.
Qed.

Lemma offset_camera_hexapod_move : is_hexapod_move env (offset_camera_hexapod env).
Proof.
  intros xyzuv w. exists (OffsetCameraHexapod xyzuv).
  unfold offset_camera_hexapod, await_ack, suspend, emit, bind, ret, raise; cbn.
  destruct (acked env (clock w)); eauto.
Qed.

Lemma get_align_func_move (self : Script) (w w1 : World) align_func :
  get_align_func env self w = (Ok align_func, w1) →
  w1 = w ∧ is_hexapod_move env align_func.
Proof.
  unfold get_align_func.
  destruct (target self) as [[]|]; cbn; intros [= <- <-];
    auto using offset_m2_hexapod_move, offset_camera_hexapod_move.
Qed.

(** Within tolerance on every axis: every gate is closed. *)
Lemma corrections_within_tolerance (self : Script) (offset : Offsets) :
  within_tolerance self offset →
  corrections self offset = [0; 0; 0; 0; 0]%float.
Proof.
  intros (HX & HY & HZ & HRX & HRY). unfold corrections.
  by rewrite (float_leb_ltb_false _ _ HX), (float_leb_ltb_false _ _ HY),
    (float_leb_ltb_false _ _ HZ), (float_leb_ltb_false _ _ HRX).
Qed.

(** A failed pass stops after the command or after the timed-out read. *)
Lemma read_feedback_raise (self : Script) (w w1 : World) (e : Exception) :
  read_feedback env self w = (Raise e, w1) →
  ∃ rest, (rest = [] ∨ rest = [NextOffsets (timeout_std self) None]) ∧
    trace w1 = trace w ++
      [Flush; CmdAlign (target self) (timeout_align self) (clock w)] ++ rest.
Proof.
  rewrite read_feedback_eq; cbn.
  destruct (acked env (clock w)).
  - destruct (arrivals env (clock w)) as [|d rest]; [|discriminate].
    destruct (arrivals env (S (clock w))) as [|d rest]; [|discriminate].
    intros [= <- <-]; cbn. eexists; split; [by right|].
    by rewrite <- app_assoc.
  - intros [= <- <-]; cbn. eexists; split; [by left|done].
Qed.

Lemma hexapod_func_eq (c : AlignComponent) (xyzuv : list float) (w : World) :
  hexapod_func env c xyzuv w =
  (if acked env (clock w) then Ok tt else Raise AckError,
   mkWorld (S (clock w))
     (queue w ++ map (pair (clock w)) (arrivals env (clock w)))
     (trace w ++ [hexapod_action c xyzuv])).
Proof.
  destruct c; cbn;
    unfold offset_m2_hexapod, offset_camera_hexapod, await_ack, suspend, emit,
      bind, ret, raise; cbn;
    by destruct (acked env (clock w)).
Qed.

Lemma get_align_func_target (self : Script) (w : World) (c : AlignComponent) :
  target self = Some c →
  get_align_func env self w = (Ok (hexapod_func env c), w).
Proof. unfold get_align_func. intros ->. by destruct c. Qed.

(** Lines 163-172 as a pass sees them: what came back, and the operations
    performed up to there. *)
Lemma read_feedback_cases (self : Script) (w : World) :
  ∃ fb w1,
    since_command env (mkPass (clock w) fb) ∧
    match fb with
    | NotAcked =>
        read_feedback env self w = (Raise AckError, w1) ∧
        trace w1 = trace w ++
          [Flush; CmdAlign (target self) (timeout_align self) (clock w)]
    | TimedOut =>
        read_feedback env self w = (Raise TimeoutError, w1) ∧
        trace w1 = trace w ++
          [Flush; CmdAlign (target self) (timeout_align self) (clock w);
           NextOffsets (timeout_std self) None]
    | Sample s offset =>
        read_feedback env self w = (Ok offset, w1) ∧
        clock w1 = S s ∧
        trace w1 = trace w ++
          [Flush; CmdAlign (target self) (timeout_align self) (clock w);
           NextOffsets (timeout_std self) (Some (s, offset))]
    end.
Proof.
  rewrite read_feedback_eq. cbv zeta. unfold since_command. cbn [issued feedback].
  destruct (acked env (clock w)) eqn:Hack.
  - destruct (arrivals env (clock w)) as [|d rest] eqn:Harr.
    + destruct (arrivals env (S (clock w))) as [|d rest] eqn:Harr2.
      * exists TimedOut. eexists. split_and!; try done.
        cbn. by rewrite <- app_assoc.
      * exists (Sample (S (clock w)) d). eexists.
        split_and!; [done| |done|done|].
        -- by right.
        -- cbn. by rewrite <- app_assoc.
    + exists (Sample (clock w) d). eexists.
      split_and!; [done| |done|done|].
      * by left.
      * cbn. by rewrite <- app_assoc.
  - exists NotAcked. eexists. by split_and!.
Qed.

(** The loop, pass by pass: its trace is that of the passes it makes, each
    with the feedback the tracker gave from its command on; a pass follows
    only a pass that moved the hexapod, and the last pass is the one that
    ends the loop or the last one allowed. *)
Lemma align_loop_passes (self : Script) (c : AlignComponent) :
  ∀ iters n_iter w, ∃ ps,
    trace (align_loop env self (hexapod_func env c) iters n_iter w).2
      = trace w ++ passes_trace self c (n_iter + 1) ps ∧
    length ps ≤ iters ∧
    (∀ p, head ps = Some p → issued p = clock w) ∧
    Forall (since_command env) ps ∧
    (∀ i p q, ps !! i = Some p → ps !! S i = Some q → goes_on env self p q) ∧
    match last ps with
    | Some p => length ps = iters ∨ ends_loop env self p
    | None => iters = 0
    end.
Proof.
  intros iters. induction iters as [|iters IH]; intros n_iter w.
  { exists []. cbn. rewrite app_nil_r. by split_and!. }
  rewrite align_loop_S.
  destruct (read_feedback_cases self w) as (fb & w1 & Hsince & Hfb).
  assert (Hone : ∀ p : Pass,
            issued p = clock w → since_command env p → ends_loop env self p →
            length [p] ≤ S iters ∧
            (∀ p0, head [p] = Some p0 → issued p0 = clock w) ∧
            Forall (since_command env) [p] ∧
            (∀ i p0 q, [p] !! i = Some p0 → [p] !! S i = Some q →
                       goes_on env self p0 q) ∧
            match last [p] with
            | Some p0 => length [p] = S iters ∨ ends_loop env self p0
            | None => S iters = 0
            end).
  { intros p Hk Hs He. split_and!.
    - cbn. lia.
    - by intros p0 [= <-].
    - by constructor.
    - intros i p0 q _ Hq. by destruct i.
    - cbn. by right. }
  destruct fb as [| |s offset].
  - destruct Hfb as [-> Htr]. exists [mkPass (clock w) NotAcked].
    split; [|by apply Hone].
    cbn [snd]. rewrite Htr. cbn. by rewrite ?app_nil_r.
  - destruct Hfb as [-> Htr]. exists [mkPass (clock w) TimedOut].
    split; [|by apply Hone].
    cbn [snd]. rewrite Htr. cbn. by rewrite ?app_nil_r.
  - destruct Hfb as (-> & Hclock & Htr). cbv zeta.
    destruct (any (corrections self offset)) eqn:Hany.
    + rewrite hexapod_func_eq. cbn [clock queue trace]. rewrite Hclock.
      destruct (acked env (S s)) eqn:Hack.
      * match goal with |- context [align_loop _ _ _ _ ?n ?w'] =>
          destruct (IH n w')
            as (ps & HT & Hlen & Hhead & Hall & Hchain & Hlast) end.
        cbn [clock] in Hhead.
        exists (mkPass (clock w) (Sample s offset) :: ps). split_and!.
        -- rewrite HT. cbn [trace]. rewrite Htr.
           cbn [passes_trace]. unfold pass_trace. cbn [issued feedback].
           rewrite Hany. by rewrite <- !app_assoc.
        -- cbn. lia.
        -- by intros p [= <-].
        -- by constructor.
        -- intros [|i] p q; cbn.
           ++ intros [= <-] Hq. exists s, offset. split_and!; try done.
              apply Hhead. by rewrite head_lookup.
           ++ apply Hchain.
        -- destruct ps as [|p' ps'].
           ++ cbn. left. by rewrite Hlast.
           ++ change (last (mkPass (clock w) (Sample s offset) :: p' :: ps'))
                with (last (p' :: ps')).
              destruct (last (p' :: ps')) as [p|] eqn:Hl;
                [|by apply last_None in Hl].
              destruct Hlast as [Hfull|Hend]; [left|by right].
              cbn in *. lia.
      * exists [mkPass (clock w) (Sample s offset)]. split.
        -- cbn [snd trace]. rewrite Htr.
           cbn [passes_trace]. unfold pass_trace. cbn [issued feedback].
           rewrite Hany, ?app_nil_r. by rewrite <- !app_assoc.
        -- apply Hone; [done|done|]. by right.
    + exists [mkPass (clock w) (Sample s offset)]. split.
      * cbn [snd trace]. rewrite Htr.
        cbn [passes_trace]. unfold pass_trace. cbn [issued feedback].
        rewrite Hany, ?app_nil_r. by rewrite <- !app_assoc.
      * apply Hone; [done|done|]. by left.
Qed.

(** C9: in every run of [align_target] on a configured target, whatever
    the tracker does and whatever the read queue holds at entry, the
    operations are those of a sequence of passes, at least one when
    [max_iter] is positive and at most [max_iter]. Every pass performs the
    flush, then the align command for the configured target, then - unless
    the command raises - exactly one read of the offsets, in this order and
    with nothing in between. The sample a read returns is the first one
    the tracker published after the command of the same pass was issued,
    never one queued before that command. Another pass follows exactly
    when the pass moved the hexapod, the move was acknowledged and
    [max_iter] allows it. *)
Theorem align_target_ordered (self : Script) (w : World)
    (c : AlignComponent) :
  target self = Some c →
  ∃ ps,
    trace (align_target env self w).2 = trace w ++ passes_trace self c 1 ps ∧
    length ps ≤ Z.to_nat (max_iter self) ∧
    (∀ p, head ps = Some p → issued p = clock w) ∧
    Forall (since_command env) ps ∧
    (∀ i p q, ps !! i = Some p → ps !! S i = Some q → goes_on env self p q) ∧
    match last ps with
    | Some p => length ps = Z.to_nat (max_iter self) ∨ ends_loop env self p
    | None => (max_iter self ≤ 0)%Z
    end.
Proof.
  intros Htgt. unfold align_target, bind.
  rewrite (get_align_func_target self w c Htgt).
  destruct (align_loop_passes self c (Z.to_nat (max_iter self)) 0 w)
    as (ps & HT & Hlen & Hhead & Hall & Hchain & Hlast).
  exists ps. split_and!; try done.
  destruct (last ps); [done|lia].
Qed.

(** C8: when the feedback read of a pass returns a reading that is within
    tolerance on every axis (equality included), the correction vector is all
    zeros and the loop returns normally in that pass: after the read it only
    logs the completion, and sends no hexapod move. *)
Theorem align_loop_converges_within_tolerance (self : Script)
    (align_func : list float → M World unit) (iters : nat) (n_iter : Z)
    (w w1 : World) (offset : Offsets) :
  read_feedback env self w = (Ok offset, w1) →
  within_tolerance self offset →
  corrections self offset = [0; 0; 0; 0; 0]%float ∧
  ∃ s, clock w ≤ s ∧
    align_loop env self align_func (S iters) n_iter w =
    (Ok tt,
     mkWorld (clock w1) (queue w1)
       (trace w ++
        [Flush; CmdAlign (target self) (timeout_align self) (clock w);
         NextOffsets (timeout_std self) (Some (s, offset));
         LogInfo (CorrectionsCompleted (n_iter + 1) (max_iter self))])).
Proof.
  intros Hrf Htol.
  pose proof (corrections_within_tolerance self offset Htol) as Hcs.
  split; [done|].
  rewrite align_loop_S, Hrf. cbv zeta. rewrite Hcs.
  apply read_feedback_ok in Hrf as (s & Hs & _ & ->).
  exists s. split; [done|]. cbn. by rewrite <- app_assoc.
Qed.

(** C5: when the laser status read before the alignment is not ON, [run]
    raises the precondition error, and the only operation it has performed
    is that status read: no align command, no feedback read and no hexapod
    move. *)
Theorem run_laser_status_not_on (self : Script) (w : World)
    (status : LaserStatus) :
  laser_status env (clock w) = Some status →
  status ≠ ON →
  run ON LaserStatus_repr env self w =
  (Raise (RuntimeError (laser_status_message ON LaserStatus_repr status)),
   mkWorld (S (clock w))
     (queue w ++ map (pair (clock w)) (arrivals env (clock w)))
     (trace w ++ [AgetLaserStatus (timeout_std self)])).
Proof.
  intros Hst Hne.
  unfold run, check_laser_status_ok, evt_laserStatus_aget, suspend, emit,
    bind, ret, raise; cbn.
  rewrite Hst. by rewrite decide_False.
Qed.

Lemma count_app (f : Action → bool) (t1 t2 : list Action) :
  count f (t1 ++ t2) = count f t1 + count f t2.
Proof. unfold count. by rewrite List.filter_app, length_app. Qed.

(** When no pass converges, the loop makes exactly [iters] passes - as many
    align commands, feedback reads and hexapod moves - and then raises the
    exhaustion error. *)
Lemma align_loop_exhausts (self : Script) align_func :
  is_hexapod_move env align_func →
  ∀ iters n_iter w,
    never_converges env self align_func iters n_iter w →
    ∃ w' T,
      align_loop env self align_func iters n_iter w =
        (Raise (RuntimeError (exhausted_message self)), w') ∧
      trace w' = trace w ++ T ∧
      count is_cmd_align T = iters ∧
      count is_next T = iters ∧
      count is_move T = iters.
Proof.
  intros Hmove iters. induction iters as [|iters IH]; intros n_iter w Hnc.
  { exists w, []. by rewrite app_nil_r. }
  destruct Hnc as (offset & w1 & w2 & Hrf & Hany & Hf & Hnc).
  rewrite align_loop_S, Hrf. cbv zeta. rewrite Hany, Hf.
  destruct (IH _ _ Hnc) as (w' & T & -> & HT & Hc & Hn & Hm).
  apply read_feedback_ok in Hrf as (s & _ & _ & Htr).
  match type of Hf with align_func ?xs ?w0 = _ =>
    destruct (Hmove xs w0) as (a & r & Ha & Hf' & _) end.
  rewrite Hf in Hf'. injection Hf' as _ Hw2. cbn [trace] in Hw2.
  exists w'.
  eexists ([Flush; CmdAlign _ _ _; NextOffsets _ _; LogInfo _; a] ++ T).
  split; [done|]. split.
  { rewrite HT, Hw2; cbn [trace]. rewrite Htr. by rewrite <- !app_assoc. }
  rewrite !count_app, Hc, Hn, Hm.
  destruct a; try discriminate; done.
Qed.

(** X12: when no pass converges - every read returns a sample whose
    correction vector is not all zero and every move is acknowledged -
    [align_target] makes exactly [max_iter] passes, then raises the error that
    names the target and [max_iter]. *)
Lemma align_target_exhausts (self : Script) (w : World) align_func :
  get_align_func env self w = (Ok align_func, w) →
  never_converges env self align_func (Z.to_nat (max_iter self)) 0 w →
  ∃ w' T,
    align_target env self w =
      (Raise (RuntimeError
                ("Failed to align " +:+ format_target (target self)
                 +:+ " after " +:+ pretty (max_iter self)
                 +:+ " iterations.")), w') ∧
    trace w' = trace w ++ T ∧
    count is_cmd_align T = Z.to_nat (max_iter self) ∧
    count is_next T = Z.to_nat (max_iter self) ∧
    count is_move T = Z.to_nat (max_iter self).
Proof.
  intros Hget Hnc. unfold align_target, bind. rewrite Hget.
  apply get_align_func_move in Hget as [_ Hmove].
  by apply align_loop_exhausts.
Qed.

End Facts.

(** With a tracker that always reports [dRX] out of tolerance the loop makes
    its three passes and fails. *)
Example align_target_exhausts_on_dRX :
  ∃ w, align_target (steady skewed SimOn) (m2_script 3) fresh =
         (Raise (RuntimeError "Failed to align 1 after 3 iterations."), w) ∧
       count is_cmd_align (trace w) = 3 ∧
       count is_next (trace w) = 3 ∧
       count is_move (trace w) = 3.
Proof. eexists. vm_compute. done. Qed.

(** X10: a nonzero entry of the correction vector means that its gate was open
    and holds the reading the source stores there: the rescaled reading of
    the own axis for the first three entries, [dRX] for the fourth, and
    [dRY] behind the gate of [dRX] for the fifth. *)
Lemma corrections_nonzero_entry (self : Script) (offset : Offsets) :
  ∃ cX cY cZ cRX cRY,
    corrections self offset = [cX; cY; cZ; cRX; cRY] ∧
    (truthy cX = true →
     (tolerance_linear self <? abs (dX offset))%float = true ∧
     cX = (dX offset * 1e6)%float) ∧
    (truthy cY = true →
     (tolerance_linear self <? abs (dY offset))%float = true ∧
     cY = (dY offset * 1e6)%float) ∧
    (truthy cZ = true →
     (tolerance_linear self <? abs (dZ offset))%float = true ∧
     cZ = (dZ offset * 1e6)%float) ∧
    (truthy cRX = true →
     (tolerance_angular self <? abs (dRX offset))%float = true ∧
     cRX = dRX offset) ∧
    (truthy cRY = true →
     (tolerance_angular self <? abs (dRX offset))%float = true ∧
     cRY = dRY offset).
Proof.
  unfold corrections. do 5 eexists. split; [reflexivity|].
  split_and!;
    match goal with |- context [(?t <? ?a)%float] =>
      destruct (t <? a)%float; [done|vm_compute; discriminate] end.
Qed.

(** X11: on the [dRX] axis and with a non-negative tolerance the entry is nonzero
    exactly when the reading is out of tolerance. *)
Lemma corrections_dRX_iff (self : Script) (offset : Offsets) (cRX : float) :
  (0 <=? tolerance_angular self)%float = true →
  corrections self offset !! 3 = Some cRX →
  truthy cRX = true ↔
  (tolerance_angular self <? abs (dRX offset))%float = true.
Proof.
  intros Htol [= <-].
  destruct (tolerance_angular self <? abs (dRX offset))%float eqn:Hgate.
  - split; [done|]. intros _. unfold truthy.
    by rewrite (float_above_threshold_nonzero _ _ Htol Hgate).
  - split; [vm_compute; discriminate|discriminate].
Qed.

(** C1: the fifth entry of the correction vector (the [dRY] axis) is gated on
    the [dRX] reading. With [dRY] out of tolerance and [dRX] within, the
    vector is all zeros; with [dRX] out of tolerance and [dRY] within, the
    [dRY] entry is the nonzero [dRY] reading. *)
Theorem corrections_dRY_gated_on_dRX :
  ((tolerance_angular (m2_script 10) <? abs (dRY tilted))%float = true ∧
   corrections (m2_script 10) tilted = [0; 0; 0; 0; 0]%float) ∧
  ((tolerance_angular (m2_script 10) <? abs (dRY skewed))%float = false ∧
   corrections (m2_script 10) skewed !! 4 = Some (dRY skewed) ∧
   truthy (dRY skewed) = true).
Proof. vm_compute. done. Qed.

(** C4: with three passes allowed and a tracker whose every reading is out
    of tolerance on [dRY] (and only there), [align_target] returns normally
    in its first pass: one align command, one feedback read, no move, and no
    exhaustion error. *)
Theorem align_target_stops_on_dRY_only :
  (tolerance_angular (m2_script 3) <? abs (dRY tilted))%float = true ∧
  align_target (steady tilted SimOn) (m2_script 3) fresh =
  (Ok tt,
   mkWorld 1 []
     [Flush; CmdAlign (Some M2) 120 0; NextOffsets 60 (Some (0, tilted));
      LogInfo (CorrectionsCompleted 1 3)]).
Proof. vm_compute. done. Qed.

(** A sample out of tolerance is in the read queue when the alignment
    starts and the tracker then publishes readings at the tolerance: the
    read returns the new reading, published while the command was awaited,
    and the loop completes without a move. *)
Example align_target_drops_stale_sample :
  queue stale = [(0, skewed)] ∧
  any (corrections (m2_script 3) skewed) = true ∧
  align_target (steady at_tolerance SimOn) (m2_script 3) stale =
  (Ok tt,
   mkWorld 5 []
     [Flush; CmdAlign (Some M2) 120 4; NextOffsets 60 (Some (4, at_tolerance));
      LogInfo (CorrectionsCompleted 1 3)]).
Proof. vm_compute. done. Qed.

Lemma align_target_ordered_witness :
  ∃ ps,
    trace (align_target (steady skewed SimOn) (m2_script 3) stale).2
      = trace stale ++ passes_trace (m2_script 3) M2 1 ps ∧
    length ps ≤ Z.to_nat (max_iter (m2_script 3)) ∧
    (∀ p, head ps = Some p → issued p = clock stale) ∧
    Forall (since_command (steady skewed SimOn)) ps ∧
    (∀ i p q, ps !! i = Some p → ps !! S i = Some q →
              goes_on (steady skewed SimOn) (m2_script 3) p q) ∧
    match last ps with
    | Some p =>
        length ps = Z.to_nat (max_iter (m2_script 3)) ∨
        ends_loop (steady skewed SimOn) (m2_script 3) p
    | None => (max_iter (m2_script 3) ≤ 0)%Z
    end.
Proof.
  apply (align_target_ordered (steady skewed SimOn) (m2_script 3) stale M2).
  reflexivity.
Defined.

Lemma align_loop_converges_within_tolerance_witness :
  corrections (m2_script 10) at_tolerance = [0; 0; 0; 0; 0]%float ∧
  ∃ s, 0 ≤ s ∧
    align_loop (steady at_tolerance SimOn) (m2_script 10)
      (offset_m2_hexapod (steady at_tolerance SimOn)) 1 0 fresh =
    (Ok tt,
     mkWorld 1 []
       [Flush; CmdAlign (Some M2) 120 0;
        NextOffsets 60 (Some (s, at_tolerance));
        LogInfo (CorrectionsCompleted 1 10)]).
Proof.
  apply (align_loop_converges_within_tolerance (steady at_tolerance SimOn)
           (m2_script 10) (offset_m2_hexapod (steady at_tolerance SimOn))
           0 0 fresh
           (mkWorld 1 []
              [Flush; CmdAlign (Some M2) 120 0;
               NextOffsets 60 (Some (0, at_tolerance))])
           at_tolerance).
  - vm_compute. reflexivity.
  - unfold within_tolerance. repeat split; vm_compute; reflexivity.
Defined.

Lemma run_laser_status_not_on_witness :
  run SimOn sim_repr (steady tilted SimOff) (m2_script 10) fresh =
  (Raise (RuntimeError
            "Laser status is <LaserStatus.OFF: 1>, expected <LaserStatus.ON: 2>."),
   mkWorld 1 [(0, tilted)] [AgetLaserStatus 60]).
Proof.
  apply (run_laser_status_not_on SimOn sim_repr (steady tilted SimOff)
           (m2_script 10) fresh SimOff).
  - reflexivity.
  - discriminate.
Defined.

End AlignSpec.

(** * The DOF synchronisation script *)

Module SyncDOFSpec.
Import SyncDOF.

(** ** Day arithmetic *)

Ltac time_ring := change (@eq Time) with (@eq Qc); ring.

Lemma days_0 : days 0 = 0%Qc.
Proof. unfold days. by rewrite Nat2Z.inj_0, Z2Qc_inj_0. Qed.

Lemma days_S (k : nat) : days (S k) = (days k + 1)%Qc.
Proof. unfold days. by rewrite Nat2Z.inj_succ, <- Z.add_1_r, Z2Qc_inj_add, Z2Qc_inj_1. Qed.

Lemma days_le (a b : nat) : a ≤ b ↔ (days a ≤ days b)%Qc.
Proof. unfold days. rewrite <- Z2Qc_inj_le. lia. Qed.

Lemma days_lt (a b : nat) : a < b ↔ (days a < days b)%Qc.
Proof. unfold days. rewrite <- Z2Qc_inj_lt. lia. Qed.

Lemma window_end_1 (t : Time) : window_end t 1 = t.
Proof. unfold window_end. cbn [Nat.sub]. rewrite days_0. time_ring. Qed.

Lemma window_end_S (t : Time) (k : nat) : window_end t (S k) = window_start t k.
Proof. unfold window_end, window_start. by rewrite Nat.sub_succ, Nat.sub_0_r. Qed.

Lemma window_end_step (t : Time) (k : nat) :
  1 ≤ k → (window_end t k - lookback_interval)%Qc = window_start t k.
Proof.
  intros Hk. destruct k as [|k]; [lia|].
  rewrite window_end_S. unfold window_start, lookback_interval.
  rewrite days_S. time_ring.
Qed.

Lemma elapsed_window_start (t : Time) (k : nat) :
  (t - window_start t k)%Qc = days k.
Proof. unfold window_start. time_ring. Qed.

Lemma max_lookback_days_lt (k : nat) :
  (max_lookback_days < days k)%Qc ↔ 7 < k.
Proof.
  unfold max_lookback_days. change (Qc_of_Z 7) with (days 7).
  symmetry. apply days_lt.
Qed.

Lemma window_start_anti (t : Time) (a b : nat) :
  a ≤ b → (window_start t b ≤ window_start t a)%Qc.
Proof.
  intros Hab. unfold window_start, Qcminus.
  apply Qcplus_le_mono_l, Qcopp_le_compat. by apply days_le.
Qed.

Lemma window_end_le (t : Time) (k : nat) : (window_end t k ≤ t)%Qc.
Proof.
  unfold window_end, Qcminus.
  rewrite <- (Qcplus_0_r t) at 2.
  apply Qcplus_le_mono_l.
  rewrite <- Qcopp_involutive, <- (Qcopp_involutive 0). 
  apply Qcopp_le_compat. change (- 0)%Qc with 0%Qc. rewrite Qcopp_involutive.
  rewrite <- days_0. apply days_le. lia.
Qed.

(** ** The lookback loop over any client *)

Section Loop.

Variable client : EfdClient.
Variable t : Time.

(** One pass of the loop, started at the end of the [k]-th window. *)
Lemma lookback_loop_pass (fuel k : nat) (tr : Trace) :
  1 ≤ k →
  lookback_loop (S fuel) client t (window_end t k) tr =
  match last (window_frame client t k) with
  | Some row => (Ok (Some (values row)), tr ++ [window_query t k])
  | None =>
      if decide (7 < k)
      then (Ok (Some (zeros 50)),
            tr ++ [window_query t k; LogInfo no_data_message])
      else lookback_loop fuel client t (window_end t (S k))
             (tr ++ [window_query t k])
  end.
Proof.
  intros Hk. cbn [lookback_loop]. cbv zeta.
  rewrite (window_end_step t k Hk).
  unfold client_select_time_series, bind, emit, ret.
  cbn -[topics zeros last].
  fold (window_query t k). fold (window_frame client t k).
  destruct (last (window_frame client t k)) as [row|]; [done|].
  rewrite elapsed_window_start, window_end_S.
  destruct (decide (7 < k)) as [Hlt|Hge].
  - rewrite decide_True by (by apply max_lookback_days_lt).
    by rewrite <- app_assoc.
  - rewrite decide_False; [done|]. by rewrite max_lookback_days_lt.
Qed.

(** The windows [k], ..., [k + d - 1] are empty and window [k + d], one of
    the first eight, is not: the loop returns the last row of that window
    after [d + 1] queries. *)
Lemma lookback_loop_hit (d : nat) :
  ∀ (k fuel : nat) (tr : Trace) (row : Row),
    1 ≤ k → k + d ≤ 8 → d < fuel →
    (∀ i, k ≤ i < k + d → window_frame client t i = []) →
    last (window_frame client t (k + d)) = Some row →
    lookback_loop fuel client t (window_end t k) tr =
    (Ok (Some (values row)), tr ++ map (window_query t) (List.seq k (S d))).
Proof.
  induction d as [|d IH]; intros k fuel tr row Hk Hkd Hfuel Hempty Hlast;
    (destruct fuel as [|fuel]; [lia|]); rewrite lookback_loop_pass by done.
  - rewrite Nat.add_0_r in Hlast. by rewrite Hlast.
  - rewrite (Hempty k) by lia. cbn [last].
    rewrite decide_False by lia.
    rewrite (IH (S k) fuel _ row); try lia.
    + by rewrite <- app_assoc.
    + intros i Hi. apply Hempty. lia.
    + by replace (S k + d) with (k + S d) by lia.
Qed.

(** The windows [k], ..., 8 are all empty: the loop gives up after the
    eighth, logs it and returns zeros. *)
Lemma lookback_loop_miss (d : nat) :
  ∀ (k fuel : nat) (tr : Trace),
    1 ≤ k → k + d = 8 → d < fuel →
    (∀ i, k ≤ i ≤ 8 → window_frame client t i = []) →
    lookback_loop fuel client t (window_end t k) tr =
    (Ok (Some (zeros 50)),
     tr ++ map (window_query t) (List.seq k (S d)) ++ [LogInfo no_data_message]).
Proof.
  induction d as [|d IH]; intros k fuel tr Hk Hkd Hfuel Hempty;
    (destruct fuel as [|fuel]; [lia|]); rewrite lookback_loop_pass by done;
    rewrite (Hempty k) by lia; cbn [last].
  - by rewrite decide_True by lia.
  - rewrite decide_False by lia.
    rewrite (IH (S k) fuel); try lia.
    + by rewrite <- app_assoc.
    + intros i Hi. apply Hempty. lia.
Qed.

Lemma get_last_issued_state_hit (k fuel : nat) (tr : Trace) (row : Row) :
  1 ≤ k ≤ 8 → 8 ≤ fuel →
  (∀ i, 1 ≤ i < k → window_frame client t i = []) →
  last (window_frame client t k) = Some row →
  get_last_issued_state fuel client t tr =
  (Ok (Some (values row)), tr ++ window_queries t k).
Proof.
  intros Hk Hfuel Hempty Hlast. unfold get_last_issued_state, window_queries.
  rewrite <- (window_end_1 t) at 2.
  destruct k as [|k]; [lia|].
  apply (lookback_loop_hit k 1 fuel tr row); try lia.
  - intros i Hi. apply Hempty. lia.
  - done.
Qed.

Lemma get_last_issued_state_miss (fuel : nat) (tr : Trace) :
  8 ≤ fuel →
  (∀ i, 1 ≤ i ≤ 8 → window_frame client t i = []) →
  get_last_issued_state fuel client t tr =
  (Ok (Some (zeros 50)),
   tr ++ window_queries t 8 ++ [LogInfo no_data_message]).
Proof.
  intros Hfuel Hempty. unfold get_last_issued_state, window_queries.
  rewrite <- (window_end_1 t) at 2.
  apply (lookback_loop_miss 7 1 fuel tr); (done || lia).
Qed.

(** The loop terminates: eight passes are always enough, it never raises,
    and more fuel does not change what it returns. *)
Lemma get_last_issued_state_total (fuel : nat) (tr : Trace) :
  8 ≤ fuel →
  ∃ state tr',
    get_last_issued_state fuel client t tr = (Ok (Some state), tr') ∧
    get_last_issued_state 8 client t tr = (Ok (Some state), tr').
Proof.
  intros Hfuel.
  assert (Hcases : ∀ n, n ≤ 8 →
            (∀ i, 1 ≤ i ≤ n → window_frame client t i = []) ∨
            ∃ k row, 1 ≤ k ≤ n ∧
              (∀ i, 1 ≤ i < k → window_frame client t i = []) ∧
              last (window_frame client t k) = Some row).
  { induction n as [|n IH]; intros Hn.
    - left. intros i Hi. lia.
    - destruct IH as [Hempty | (k & row & Hk & Hempty & Hlast)]; [lia| |].
      + destruct (last (window_frame client t (S n))) as [row|] eqn:Hlast.
        * right. exists (S n), row. split_and!; [lia|lia| |done].
          intros i Hi. apply Hempty. lia.
        * left. intros i Hi. destruct (decide (i = S n)) as [->|Hne].
          -- by apply last_None.
          -- apply Hempty. lia.
      + right. exists k, row. split_and!; [lia|lia|done|done]. }
  destruct (Hcases 8) as [Hempty | (k & row & Hk & Hempty & Hlast)]; [done| |].
  - eexists _, _. split; by apply get_last_issued_state_miss.
  - eexists _, _. split; by apply (get_last_issued_state_hit k).
Qed.

End Loop.

(** ** The lookback loop over a time-ordered archive *)

Lemma filter_none {A} (P : A → Prop) `{!∀ x, Decision (P x)} (l : list A) :
  (∀ x, x ∈ l → ¬ P x) → filter P l = [].
Proof.
  induction l as [|x l IH]; intros Hl; [done|].
  rewrite filter_cons_False by (apply Hl; left).
  apply IH. intros y Hy. apply Hl. by right.
Qed.

(** In a time-ordered frame the last row of a selection is its latest. *)
Lemma last_filter_latest (P : Row → Prop) `{!∀ r, Decision (P r)}
    (archive : DataFrame) (row : Row) :
  time_ordered archive →
  last (filter P archive) = Some row →
  row ∈ archive ∧ P row ∧
  ∀ r, r ∈ archive → P r → (index r ≤ index row)%Qc.
Proof.
  intros Hsorted Hlast.
  pose proof (last_Some_elem_of _ _ Hlast) as [Hrow Hin]%list_elem_of_filter.
  split_and!; [done|done|].
  apply last_filter_Some in Hlast as (l1 & l2 & -> & Hl2).
  intros r [Hr|Hr]%elem_of_app HP.
  - apply (StronglySorted_app_1_elem_of _ _ _ _ _ Hsorted Hr). left.
  - apply elem_of_cons in Hr as [->|Hr]; [apply Qcle_refl|].
    rewrite Forall_forall in Hl2. by destruct (Hl2 r Hr).
Qed.

Lemma window_frame_archive (closed_end : bool) (archive : DataFrame)
    (t : Time) (k : nat) :
  window_frame (archive_client closed_end archive) t k =
  query_time_series closed_end archive (window_start t k) (window_end t k).
Proof. reflexivity. Qed.

(** C6: over a time-ordered archive, when the [k]-th one-day window before
    the reference time is the first that holds a sample and it is one of the
    first eight, the locator queries the windows 1, ..., [k] in this order
    and nothing more, and returns the latest sample of the [k]-th window. *)
Theorem locate_first_window_with_data (closed_end : bool)
    (archive : DataFrame) (t : Time) (k fuel : nat) (tr : Trace) :
  time_ordered archive →
  1 ≤ k ≤ 8 →
  8 ≤ fuel →
  (∀ i, 1 ≤ i < k →
     query_time_series closed_end archive (window_start t i) (window_end t i)
     = []) →
  query_time_series closed_end archive (window_start t k) (window_end t k)
  ≠ [] →
  ∃ row,
    row ∈ archive ∧
    in_window closed_end (window_start t k) (window_end t k) row ∧
    (∀ r, r ∈ archive →
       in_window closed_end (window_start t k) (window_end t k) r →
       (index r ≤ index row)%Qc) ∧
    get_last_issued_state fuel (archive_client closed_end archive) t tr =
    (Ok (Some (values row)), tr ++ window_queries t k).
Proof.
  intros Hsorted Hk Hfuel Hempty Hdata.
  apply last_is_Some in Hdata as [row Hlast].
  destruct (last_filter_latest _ archive row Hsorted Hlast)
    as (Hin & Hwin & Hlatest).
  exists row. split_and!; [done|done|done|].
  by apply (get_last_issued_state_hit _ t k).
Qed.

(** C7: when the archive holds no sample in the eight days before the
    reference time, the locator queries the eight windows, logs that no data
    was found and returns fifty zeros as an ordinary result. *)
Theorem locate_no_data_in_eight_days (closed_end : bool)
    (archive : DataFrame) (t : Time) (fuel : nat) (tr : Trace) :
  8 ≤ fuel →
  (∀ r, r ∈ archive → ¬ (window_start t 8 ≤ index r ∧ index r ≤ t)%Qc) →
  get_last_issued_state fuel (archive_client closed_end archive) t tr =
  (Ok (Some (zeros 50)),
   tr ++ window_queries t 8 ++ [LogInfo no_data_message]) ∧
  length (zeros 50) = 50.
Proof.
  intros Hfuel Hnone. split; [|done].
  apply get_last_issued_state_miss; [done|].
  intros i Hi. rewrite window_frame_archive. apply filter_none.
  intros r Hr [Hstart Hend]. apply (Hnone r Hr). split.
  - eapply Qcle_trans; [|exact Hstart]. apply window_start_anti. lia.
  - eapply Qcle_trans; [|apply (window_end_le t i)].
    destruct closed_end; [done|by apply Qclt_le_weak].
Qed.

(** C10: when the latest sample of a time-ordered archive lies more than
    seven and at most eight days before the reference time, the locator
    queries eight windows and returns that sample, not the zeros. *)
Theorem locate_sample_in_eighth_day (closed_end : bool)
    (older : DataFrame) (row : Row) (t : Time) (fuel : nat) (tr : Trace) :
  time_ordered (older ++ [row]) →
  8 ≤ fuel →
  (index row < t - max_lookback_days)%Qc →
  (t - days 8 ≤ index row)%Qc →
  get_last_issued_state fuel (archive_client closed_end (older ++ [row])) t tr
  = (Ok (Some (values row)), tr ++ window_queries t 8).
Proof.
  intros Hsorted Hfuel Hlt Hle.
  change (t - max_lookback_days)%Qc with (window_start t 7) in Hlt.
  change (t - days 8)%Qc with (window_start t 8) in Hle.
  assert (Hlatest : ∀ r, r ∈ older ++ [row] → (index r ≤ index row)%Qc).
  { intros r [Hr|Hr]%elem_of_app.
    - apply (StronglySorted_app_1_elem_of _ _ _ _ _ Hsorted Hr). left.
    - apply list_elem_of_singleton in Hr as ->. apply Qcle_refl. }
  apply (get_last_issued_state_hit _ t 8); [lia|done| |].
  - intros i Hi. rewrite window_frame_archive. apply filter_none.
    intros r Hr [Hstart _]. apply (Qclt_not_le _ _ Hlt).
    eapply Qcle_trans; [|apply (Hlatest r Hr)].
    eapply Qcle_trans; [|exact Hstart]. apply window_start_anti. lia.
  - rewrite window_frame_archive. unfold query_time_series, DataFrame.
    rewrite filter_app, (filter_cons_True _ row), filter_nil.
    + apply last_snoc.
    + split; [done|]. rewrite window_end_S.
      destruct closed_end; [by apply Qclt_le_weak|done].
Qed.

Lemma ones_ne_zeros : ones 50 ≠ zeros 50.
Proof.
  intros H.
  apply (f_equal (λ l, match l with x :: _ => (x =? 0)%float | [] => true end))
    in H.
  vm_compute in H. discriminate.
Qed.

Lemma time_ordered_singleton (row : Row) : time_ordered [row].
Proof. repeat constructor. Qed.

(** With the only sample 9.5 days back, the first window that holds a
    sample is the tenth, and the locator returns the zeros, not that
    sample. *)
Lemma locate_skips_tenth_window :
  Forall (λ i, query_time_series true archive_10_days
                 (window_start t20 i) (window_end t20 i) = [])
    (List.seq 1 9) ∧
  query_time_series true archive_10_days
    (window_start t20 10) (window_end t20 10) = archive_10_days ∧
  (get_last_issued_state 20 (archive_client true archive_10_days) t20 []).1
  = Ok (Some (zeros 50)) ∧
  zeros 50 ≠ ones 50.
Proof.
  split_and!.
  - repeat constructor; vm_compute; reflexivity.
  - vm_compute. reflexivity.
  - vm_compute. reflexivity.
  - intros H. by apply ones_ne_zeros.
Qed.

Lemma locate_first_window_with_data_witness :
  ∃ row,
    row ∈ archive_3_days ∧
    in_window true (window_start t20 3) (window_end t20 3) row ∧
    (∀ r, r ∈ archive_3_days →
       in_window true (window_start t20 3) (window_end t20 3) r →
       (index r ≤ index row)%Qc) ∧
    get_last_issued_state 8 (archive_client true archive_3_days) t20 [] =
    (Ok (Some (values row)), [] ++ window_queries t20 3).
Proof.
  apply (locate_first_window_with_data true archive_3_days t20 3 8 []).
  - apply time_ordered_singleton.
  - lia.
  - lia.
  - intros i Hi. assert (i = 1 ∨ i = 2) as [-> | ->] by lia;
      vm_compute; reflexivity.
  - vm_compute. discriminate.
Defined.

(** With the only sample 7.5 days back there is no sample within seven
    days of the reference time, and the locator returns that sample, not the
    zeros. *)
Lemma locate_finds_sample_past_seven_days :
  (∀ r, r ∈ archive_8_days →
     ¬ (t20 - max_lookback_days ≤ index r ∧ index r ≤ t20)%Qc) ∧
  (get_last_issued_state 8 (archive_client true archive_8_days) t20 []).1
  = Ok (Some (ones 50)) ∧
  ones 50 ≠ zeros 50.
Proof.
  split_and!.
  - intros r ->%list_elem_of_singleton.
    intros H. pose proof (bool_decide_pack _ H) as Hb. vm_compute in Hb. done.
  - vm_compute. reflexivity.
  - apply ones_ne_zeros.
Qed.

Lemma locate_no_data_in_eight_days_witness :
  get_last_issued_state 8 (archive_client true archive_10_days) t20 [] =
  (Ok (Some (zeros 50)),
   [] ++ window_queries t20 8 ++ [LogInfo no_data_message]) ∧
  length (zeros 50) = 50.
Proof.
  apply (locate_no_data_in_eight_days true archive_10_days t20 8 []).
  - lia.
  - intros r ->%list_elem_of_singleton.
    intros H. pose proof (bool_decide_pack _ H) as Hb. vm_compute in Hb. done.
Defined.

Lemma locate_sample_in_eighth_day_witness :
  get_last_issued_state 8 (archive_client false ([] ++ archive_8_days)) t20 []
  = (Ok (Some (ones 50)), [] ++ window_queries t20 8).
Proof.
  apply (locate_sample_in_eighth_day false []
           (mkRow (Q2Qc (25 # 2)) (ones 50)) t20 8 []).
  - apply time_ordered_singleton.
  - lia.
  - apply (bool_decide_unpack _). vm_compute. done.
  - apply (bool_decide_unpack _). vm_compute. done.
Defined.

(** ** The offset vector *)

(** From position [i] on, with room for the remaining items in both lists:
    every item is written, nothing else changes. *)
Lemma dof_offsets_ok (current : list float) (target : list float) :
  ∀ (i : nat) (value : list float),
    i + length target ≤ length current →
    i + length target ≤ length value →
    ∃ v, dof_offsets i target current value = Ok v ∧
      length v = length value ∧
      (∀ j x c, target !! j = Some x → current !! (i + j) = Some c →
         v !! (i + j) = Some (x - c)%float) ∧
      (∀ j, j < i ∨ i + length target ≤ j → v !! j = value !! j).
Proof.
  induction target as [|x target IH]; intros i value Hcur Hval.
  { exists value. split_and!; [done|done| |done]. intros j y c Hj. done. }
  rewrite length_cons in Hcur, Hval. cbn [dof_offsets].
  destruct (lookup_lt_is_Some_2 current i) as [c Hc]; [lia|]. rewrite Hc.
  rewrite decide_True by lia.
  destruct (IH (S i) (<[i := (x - c)%float]> value)) as (v & -> & Hlen & Hset & Hkeep);
    [lia | rewrite length_insert; lia |].
  rewrite length_insert in Hlen.
  exists v. split_and!; [done|done| |].
  - intros [|j] y c' Hy Hc'.
    + rewrite Nat.add_0_r in *. cbn in Hy. simplify_eq.
      rewrite Hkeep by lia. apply list_lookup_insert_eq. lia.
    + cbn in Hy. replace (i + S j) with (S i + j) in * by lia. eauto.
  - intros j Hj. rewrite length_cons in Hj. rewrite Hkeep by lia.
    apply list_lookup_insert_ne. lia.
Qed.

(** Too many items for one of the two lists: the loop raises. *)
Lemma dof_offsets_index_error (current : list float) (target : list float) :
  ∀ (i : nat) (value : list float),
    i ≤ length current → i ≤ length value →
    length current < i + length target ∨ length value < i + length target →
    dof_offsets i target current value = Raise IndexError.
Proof.
  induction target as [|x target IH]; intros i value Hi Hi' Hlong.
  { rewrite length_nil in Hlong. lia. }
  rewrite length_cons in Hlong. cbn [dof_offsets].
  destruct (current !! i) as [c|] eqn:Hc; [|done].
  apply lookup_lt_Some in Hc.
  destruct (decide (i < length value)) as [Hlt|]; [|done].
  apply IH; rewrite ?length_insert; lia.
Qed.

(** C3: when the target state is no longer than the current state and than
    the command's value array, the loop fills [value[i] = target[i] -
    current[i]] for every index of the target, leaves the other entries of
    the command as they were, and raises nothing, whether or not the lengths
    differ; when the target state is longer than one of the two, it raises
    [IndexError]. *)
Theorem dof_offsets_spec (target current value : list float) :
  (length target ≤ length current → length target ≤ length value →
   ∃ v, dof_offsets 0 target current value = Ok v ∧
     length v = length value ∧
     (∀ i x c, target !! i = Some x → current !! i = Some c →
        v !! i = Some (x - c)%float) ∧
     (∀ i, length target ≤ i → v !! i = value !! i)) ∧
  (length current < length target ∨ length value < length target →
   dof_offsets 0 target current value = Raise IndexError).
Proof.
  split.
  - intros Hcur Hval.
    destruct (dof_offsets_ok current target 0 value)
      as (v & Hv & Hlen & Hset & Hkeep); [done|done|].
    exists v. split_and!; [done|done| |].
    + intros i x c. apply (Hset i x c).
    + intros i Hi. apply Hkeep. lia.
  - intros Hlong. apply dof_offsets_index_error; lia.
Qed.

Lemma dof_offsets_spec_witness :
  ∃ v, dof_offsets 0 [1; 2; 3]%float [1; 1; 1]%float (zeros 3) = Ok v ∧
    length v = length (zeros 3) ∧
    (∀ i x c, [1; 2; 3]%float !! i = Some x → [1; 1; 1]%float !! i = Some c →
       v !! i = Some (x - c)%float) ∧
    (∀ i, length [1; 2; 3]%float ≤ i → v !! i = zeros 3 !! i).
Proof.
  apply (proj1 (dof_offsets_spec [1; 2; 3]%float [1; 1; 1]%float (zeros 3)));
    cbn; lia.
Defined.

(** The example of the specification. *)
Example dof_offsets_123_111 :
  dof_offsets 0 [1; 2; 3]%float [1; 1; 1]%float (zeros 3)
  = Ok [0; 1; 2]%float.
Proof. vm_compute. reflexivity. Qed.

(** A target state shorter than the current state: the lengths differ and
    the loop returns an offset vector all the same. *)
Lemma dof_offsets_shorter_target :
  length [1; 2]%float ≠ length [1; 1; 1]%float ∧
  dof_offsets 0 [1; 2]%float [1; 1; 1]%float (zeros 3) = Ok [0; 1; 0]%float.
Proof. split; [cbn; lia | vm_compute; reflexivity]. Qed.

(** ** The run *)

(** X15: whatever the collaborators do, [run] raises, and it sends neither
    a query to the archive nor the offset command. *)
Lemma run_raises (env : Env) (self : Script) (tr : Trace) :
  ∃ e tr',
    run env self tr = (Raise e, tr ++ tr') ∧
    Forall (λ a, is_query_or_offset a = false) tr'.
Proof.
  unfold run, assert_feasibility, checkpoint, evt_degreeOfFreedom_aget,
    lift, emit, bind, ret, raise. cbn.
  destruct (feasible env); cbn.
  - destruct (degreeOfFreedom env); cbn; eexists _, _;
      rewrite <- !app_assoc; (split; [reflexivity|]);
      repeat constructor.
  - eexists _, _. split; [reflexivity|]. repeat constructor.
Qed.

(** C2: with the archive answering and the current state read, [run] binds
    [last_state] to the coroutine object of the un-awaited call at line 180;
    [enumerate] raises [TypeError] on it, no state vector is located, no
    difference is formed and no offset command is sent. *)
Theorem run_enumerates_coroutine :
  run (sim_env archive_3_days (zeros 50)) (mkScript 20230101 1) [] =
  (Raise (TypeError "'coroutine' object is not iterable"),
   [AssertFeasibility; NewEfdClient "summit_efd"; Checkpoint "Setting DOF...";
    AgetDegreeOfFreedom 30]).
Proof. vm_compute. reflexivity. Qed.

End SyncDOFSpec.

(** * Further properties of the alignment script *)

Module AlignExtra.
Import Align AlignTrace AlignSpec.

Section Facts.

Context {LaserStatus : Type} `{!EqDecision LaserStatus}.
Variable ON : LaserStatus.
Variable LaserStatus_repr : LaserStatus → string.
Variable env : @Env LaserStatus.

Lemma count_move (a : Action) :
  is_move a = true →
  count is_cmd_align [a] = 0 ∧ count is_next [a] = 0 ∧ count is_move [a] = 1.
Proof. by destruct a. Qed.

(** Whatever happens, the loop issues at most [iters] align commands, reads
    at most once per command and moves at most once per read. *)
Lemma align_loop_counts (self : Script) align_func :
  is_hexapod_move env align_func →
  ∀ iters n_iter w, ∃ T,
    trace (align_loop env self align_func iters n_iter w).2 = trace w ++ T ∧
    count is_cmd_align T ≤ iters ∧
    count is_next T ≤ count is_cmd_align T ∧
    count is_move T ≤ count is_next T.
Proof.
  intros Hmove iters. induction iters as [|iters IH]; intros n_iter w.
  { exists []. rewrite app_nil_r. split_and!; (done || cbn; lia). }
  rewrite align_loop_S.
  destruct (read_feedback env self w) as [[offset|e] w1] eqn:Hrf.
  - apply read_feedback_ok in Hrf as (s & Hs & _ & Htr). cbv zeta.
    destruct (any (corrections self offset)).
    + match goal with |- context [align_func ?xs ?w'] =>
        destruct (Hmove xs w') as (a & r & Ha & -> & Hr) end.
      cbn [clock queue trace] in *.
      destruct (count_move a Ha) as (Hac & Han & Ham).
      destruct r as [[]|e].
      * match goal with |- context [align_loop _ _ _ _ ?n ?w'] =>
          destruct (IH n w') as (T & HT & Hc & Hn & Hm) end.
        rewrite HT; cbn [trace]. rewrite Htr.
        eexists ([Flush; CmdAlign _ _ _; NextOffsets _ _; LogInfo _] ++ [a] ++ T).
        split; [by rewrite <- !app_assoc|].
        rewrite !count_app, Hac, Han, Ham. cbn. lia.
      * cbn [snd trace]. rewrite Htr.
        eexists ([Flush; CmdAlign _ _ _; NextOffsets _ _; LogInfo _] ++ [a]).
        split; [by rewrite <- !app_assoc|].
        rewrite !count_app, Hac, Han, Ham. cbn. lia.
    + cbn [snd trace]. rewrite Htr.
      eexists [_; _; _; _]. split; [by rewrite <- !app_assoc|].
      cbn. lia.
  - apply read_feedback_raise in Hrf as (rest & Hrest & Htr).
    cbn [snd]. rewrite Htr. eexists. split; [done|].
    destruct Hrest as [-> | ->]; cbn; lia.
Qed.

(** X1: in every run of [align_target], whatever the tracker does, there
    are at most [max_iter] align commands, at most one feedback read per
    command and at most one hexapod move per read. *)
Theorem align_target_bounded (self : Script) (w : World) :
  ∃ T, trace (align_target env self w).2 = trace w ++ T ∧
       count is_cmd_align T ≤ Z.to_nat (max_iter self) ∧
       count is_next T ≤ count is_cmd_align T ∧
       count is_move T ≤ count is_next T.
Proof.
  unfold align_target, bind.
  destruct (get_align_func env self w) as [[align_func|e] w1] eqn:Hget.
  - apply get_align_func_move in Hget as [-> Hmove].
    by apply align_loop_counts.
  - exists []. revert Hget. unfold get_align_func.
    destruct (target self) as [[]|]; cbn; intros [= <- <-].
    rewrite app_nil_r. split_and!; (done || cbn; lia).
Qed.

(** X2: with [max_iter] zero or negative the loop body never runs:
    [align_target] raises the exhaustion error at once and has not touched
    the laser tracker or a hexapod. *)
Theorem align_target_no_passes (self : Script) (w : World)
    (c : AlignComponent) :
  target self = Some c →
  (max_iter self ≤ 0)%Z →
  align_target env self w =
  (Raise (RuntimeError
            ("Failed to align " +:+ pretty (AlignComponent_value c)
             +:+ " after " +:+ pretty (max_iter self) +:+ " iterations.")),
   w).
Proof.
  intros Htgt Hmax. unfold align_target, get_align_func, bind.
  rewrite Htgt. replace (Z.to_nat (max_iter self)) with 0 by lia.
  destruct c; cbn; unfold exhausted_message; by rewrite Htgt.
Qed.

(** X3: when the target was never configured, [run] reads the laser status,
    passes its first checkpoint and then raises the invalid-target error: no
    flush, no align command, no feedback read, no move. *)
Theorem run_without_target (self : Script) (w : World) :
  target self = None →
  laser_status env (clock w) = Some ON →
  ∃ w',
    run ON LaserStatus_repr env self w =
      (Raise (RuntimeError "Invalid target None."), w') ∧
    trace w' = trace w ++
      [AgetLaserStatus (timeout_std self);
       Checkpoint "Starting alignment procedure."].
Proof.
  intros Htgt Hst.
  unfold run, check_laser_status_ok, evt_laserStatus_aget, checkpoint,
    align_target, get_align_func, suspend, emit, bind, ret, raise; cbn.
  rewrite Hst, decide_True by done. cbn. rewrite Htgt.
  eexists. split; [reflexivity|]. cbn. by rewrite <- app_assoc.
Qed.

(** A normal return of the loop comes right after a read whose correction
    vector is all zero, in one of the [iters] passes. *)
Lemma align_loop_ok (self : Script) align_func :
  is_hexapod_move env align_func →
  ∀ iters n_iter w w',
    align_loop env self align_func iters n_iter w = (Ok tt, w') →
    ∃ T s offset k,
      trace w' = trace w ++ T ++
        [NextOffsets (timeout_std self) (Some (s, offset));
         LogInfo (CorrectionsCompleted (n_iter + Z.of_nat k) (max_iter self))] ∧
      any (corrections self offset) = false ∧
      1 ≤ k ≤ iters.
Proof.
  intros Hmove iters. induction iters as [|iters IH]; intros n_iter w w'.
  { discriminate. }
  rewrite align_loop_S.
  destruct (read_feedback env self w) as [[offset|e] w1] eqn:Hrf; [|discriminate].
  apply read_feedback_ok in Hrf as (s & Hs & _ & Htr). cbv zeta.
  destruct (any (corrections self offset)) eqn:Hany.
  - match goal with |- context [align_func ?xs ?w0] =>
      destruct (Hmove xs w0) as (a & r & Ha & -> & Hr) end.
    cbn [clock queue trace] in *.
    destruct r as [[]|e]; [|discriminate].
    intros (T & s' & offset' & k & HT & Hany' & Hk)%IH.
    cbn [trace] in HT. rewrite Htr in HT.
    eexists ([Flush; CmdAlign _ _ _; NextOffsets _ _; LogInfo _; a] ++ T),
      s', offset', (S k).
    split_and!; [|done|lia|lia].
    replace (n_iter + Z.of_nat (S k))%Z with (n_iter + 1 + Z.of_nat k)%Z by lia.
    by rewrite HT, <- !app_assoc.
  - intros [= <-]. cbn [trace]. rewrite Htr.
    exists [Flush; CmdAlign (target self) (timeout_align self) (clock w)],
      s, offset, 1.
    split_and!; [|done|lia|lia].
    by rewrite <- !app_assoc.
Qed.

(** X4: [align_target] returns normally only right after a feedback read
    whose correction vector is all zero, in a pass numbered between 1 and
    [max_iter]; the last two operations are that read and the completion
    record. *)
Theorem align_target_ok (self : Script) (w w' : World) :
  align_target env self w = (Ok tt, w') →
  ∃ T s offset n,
    trace w' = trace w ++ T ++
      [NextOffsets (timeout_std self) (Some (s, offset));
       LogInfo (CorrectionsCompleted n (max_iter self))] ∧
    any (corrections self offset) = false ∧
    (1 ≤ n ≤ max_iter self)%Z.
Proof.
  unfold align_target, bind.
  destruct (get_align_func env self w) as [[align_func|e] w1] eqn:Hget;
    [|discriminate].
  apply get_align_func_move in Hget as [-> Hmove].
  intros (T & s & offset & k & HT & Hany & Hk)%(align_loop_ok _ _ Hmove).
  exists T, s, offset, (0 + Z.of_nat k)%Z. split_and!; [done|done|lia|lia].
Qed.

(** X5: when the align command of a pass is not acknowledged, the loop
    raises the acknowledgement error there: it has flushed and sent the
    command, and it neither reads feedback nor starts another pass. *)
Theorem align_loop_command_not_acked (self : Script)
    (align_func : list float → M World unit) (iters : nat) (n_iter : Z)
    (w : World) :
  acked env (clock w) = false →
  align_loop env self align_func (S iters) n_iter w =
  (Raise AckError,
   mkWorld (S (clock w)) (map (pair (clock w)) (arrivals env (clock w)))
     (trace w ++
      [Flush; CmdAlign (target self) (timeout_align self) (clock w)])).
Proof.
  intros Hack. rewrite align_loop_S, read_feedback_eq. cbv zeta.
  by rewrite Hack.
Qed.

(** X6: when the command is acknowledged and no sample arrives, neither
    while the command is awaited nor during the wait of [next], the loop
    raises the timeout there, without a move and without another pass. *)
Theorem align_loop_no_feedback (self : Script)
    (align_func : list float → M World unit) (iters : nat) (n_iter : Z)
    (w : World) :
  acked env (clock w) = true →
  arrivals env (clock w) = [] →
  arrivals env (S (clock w)) = [] →
  align_loop env self align_func (S iters) n_iter w =
  (Raise TimeoutError,
   mkWorld (S (S (clock w))) []
     (trace w ++
      [Flush; CmdAlign (target self) (timeout_align self) (clock w);
       NextOffsets (timeout_std self) None])).
Proof.
  intros Hack H0 H1. rewrite align_loop_S, read_feedback_eq. cbv zeta.
  rewrite Hack, H0, H1. by rewrite <- app_assoc.
Qed.

Lemma moves_follow_log_move (c : AlignComponent) (n total : Z)
    (cs : list float) (tr : list Action) :
  length cs = 5 →
  moves_follow_log (Some c) (Some (hexapod_action c (neg cs))) tr →
  moves_follow_log (Some c)
    (Some (LogInfo (ApplyingCorrections n total cs)))
    (hexapod_action c (neg cs) :: tr).
Proof.
  intros Hlen Htr. destruct c; cbn; (split; [|done]);
    (split; [done|]); exists n, total, cs;
    unfold neg; by rewrite length_map.
Qed.

Lemma moves_follow_log_skip (tgt : option AlignComponent)
    (prev : option Action) (a : Action) (tr : list Action) :
  is_move a = false →
  moves_follow_log tgt (Some a) tr →
  moves_follow_log tgt prev (a :: tr).
Proof. intros Ha Htr. by destruct a. Qed.

Lemma align_loop_moves (self : Script) (c : AlignComponent) :
  ∀ iters n_iter w prev, ∃ T,
    trace (align_loop env self (hexapod_func env c) iters n_iter w).2
    = trace w ++ T ∧
    moves_follow_log (Some c) prev T.
Proof.
  intros iters. induction iters as [|iters IH]; intros n_iter w prev.
  { exists []. by rewrite app_nil_r. }
  rewrite align_loop_S.
  destruct (read_feedback env self w) as [[offset|e] w1] eqn:Hrf.
  - apply read_feedback_ok in Hrf as (s & Hs & _ & Htr). cbv zeta.
    destruct (any (corrections self offset)).
    + rewrite hexapod_func_eq. cbn [clock queue trace].
      destruct (acked env (clock w1)).
      * match goal with |- context [align_loop _ _ _ _ ?n ?w'] =>
          destruct (IH n w'
                      (Some (hexapod_action c (neg (corrections self offset)))))
            as (T & HT & Hfollow) end.
        rewrite HT; cbn [trace]. rewrite Htr.
        eexists (_ :: _ :: _ :: _ :: _ :: T). split.
        { by rewrite <- !app_assoc. }
        do 4 (apply moves_follow_log_skip; [done|]).
        by apply moves_follow_log_move.
      * cbn [snd trace]. rewrite Htr.
        eexists [_; _; _; _; _]. split.
        { by rewrite <- !app_assoc. }
        do 4 (apply moves_follow_log_skip; [done|]).
        by apply moves_follow_log_move.
    + cbn [snd trace]. rewrite Htr.
      eexists [_; _; _; _]. split; [by rewrite <- !app_assoc|].
      cbn. done.
  - apply read_feedback_raise in Hrf as (rest & Hrest & Htr).
    cbn [snd]. rewrite Htr. eexists. split; [done|].
    destruct Hrest as [-> | ->]; cbn; done.
Qed.

(** X7: in every run of [align_target] each hexapod move goes to the
    hexapod of the configured target (never to the other one), comes
    directly after the log record of the corrections, and carries exactly
    the negated corrections of that record, five numbers. *)
Theorem align_target_moves (self : Script) (w : World) :
  ∃ T, trace (align_target env self w).2 = trace w ++ T ∧
       moves_follow_log (target self) None T.
Proof.
  unfold align_target, get_align_func, bind.
  destruct (target self) as [c|] eqn:Htgt.
  - destruct (align_loop_moves self c (Z.to_nat (max_iter self)) 0 w None)
      as (T & HT & Hfollow).
    exists T. by destruct c.
  - exists []. cbn. by rewrite app_nil_r.
Qed.

End Facts.

(** ** Floats in the correction vector *)

Lemma SFeqb_opp_zero x :
  SFeqb (SFopp x) (S754_zero false) = SFeqb x (S754_zero false).
Proof. unfold SFeqb. by destruct x as [[]|[]| |[] m e]. Qed.

Lemma truthy_opp (c : float) : truthy (- c) = truthy c.
Proof.
  unfold truthy. f_equal.
  rewrite !FloatAxioms.eqb_spec, opp_spec.
  change (Prim2SF 0) with (S754_zero false). apply SFeqb_opp_zero.
Qed.

(** X8: the move is zero exactly on the axes whose correction is zero:
    negating the vector keeps every entry's truth value, so an axis within
    tolerance is never moved and [-corrections] is zero only when
    [corrections] is. *)
Theorem neg_corrections_truthy (cs : list float) :
  Forall2 (λ m c, truthy m = truthy c) (neg cs) cs ∧ any (neg cs) = any cs.
Proof.
  induction cs as [|c cs [IH1 IH2]]; [by split|].
  split.
  - constructor; [apply truthy_opp|done].
  - cbn. rewrite truthy_opp. f_equal. exact IH2.
Qed.

Lemma SFeqb_self_false x : SFeqb x x = false → x = S754_nan.
Proof.
  unfold SFeqb. destruct x as [s|s| |s m e]; cbn; try done.
  - by destruct s.
  - rewrite Z.compare_refl.
    change (PosDef.Pos.compare_cont Eq m m) with (Pos.compare m m).
    rewrite Pos.compare_refl. by destruct s.
Qed.

Lemma gate_closed_on_nan (tol x : float) :
  is_nan x = true → (tol <? abs x)%float = false.
Proof.
  unfold is_nan. rewrite negb_true_iff, FloatAxioms.eqb_spec.
  intros Hnan%SFeqb_self_false.
  rewrite ltb_spec, abs_spec, Hnan. unfold SFltb.
  by destruct (Prim2SF tol).
Qed.

(** X9: a reading that is not a number on [dX], [dY], [dZ] and [dRX] gives
    the all-zero correction vector, whatever the tolerances and whatever
    [dRY] is: the loop takes it for an aligned component. *)
Theorem corrections_nan (self : Script) (offset : Offsets) :
  is_nan (dX offset) = true →
  is_nan (dY offset) = true →
  is_nan (dZ offset) = true →
  is_nan (dRX offset) = true →
  corrections self offset = [0; 0; 0; 0; 0]%float ∧
  any (corrections self offset) = false.
Proof.
  intros HX HY HZ HRX. unfold corrections.
  rewrite !(gate_closed_on_nan _ _ HX), !(gate_closed_on_nan _ _ HY),
    !(gate_closed_on_nan _ _ HZ), !(gate_closed_on_nan _ _ HRX).
  split; [done|]. vm_compute. reflexivity.
Qed.

(** ** Examples *)

Lemma align_target_no_passes_witness :
  align_target (mute SimOn) (m2_script 0) fresh =
  (Raise (RuntimeError "Failed to align 1 after 0 iterations."), fresh).
Proof.
  apply (align_target_no_passes (mute SimOn) (m2_script 0) fresh M2).
  - reflexivity.
  - vm_compute. discriminate.
Defined.

Lemma run_without_target_witness :
  ∃ w',
    run SimOn sim_repr (steady tilted SimOn) init fresh =
      (Raise (RuntimeError "Invalid target None."), w') ∧
    trace w' = trace fresh ++
      [AgetLaserStatus 60; Checkpoint "Starting alignment procedure."].
Proof.
  apply (run_without_target SimOn sim_repr (steady tilted SimOn) init fresh).
  - reflexivity.
  - reflexivity.
Defined.

Lemma align_target_ok_witness :
  ∃ T s offset n,
    [Flush; CmdAlign (Some M2) 120 0;
     NextOffsets 60 (Some (0, at_tolerance));
     LogInfo (CorrectionsCompleted 1 10)] =
    trace fresh ++ T ++
      [NextOffsets 60 (Some (s, offset));
       LogInfo (CorrectionsCompleted n 10)] ∧
    any (corrections (m2_script 10) offset) = false ∧
    (1 ≤ n ≤ 10)%Z.
Proof.
  apply (align_target_ok (steady at_tolerance SimOn) (m2_script 10) fresh
           (mkWorld 1 []
              [Flush; CmdAlign (Some M2) 120 0;
               NextOffsets 60 (Some (0, at_tolerance));
               LogInfo (CorrectionsCompleted 1 10)])).
  vm_compute. reflexivity.
Defined.

Lemma align_loop_command_not_acked_witness :
  align_loop (deaf SimOn) (m2_script 10) (offset_m2_hexapod (deaf SimOn))
    10 0 fresh =
  (Raise AckError, mkWorld 1 [] [Flush; CmdAlign (Some M2) 120 0]).
Proof.
  apply (align_loop_command_not_acked (deaf SimOn) (m2_script 10)
           (offset_m2_hexapod (deaf SimOn)) 9 0 fresh).
  reflexivity.
Defined.

Lemma align_loop_no_feedback_witness :
  align_loop (mute SimOn) (m2_script 10) (offset_m2_hexapod (mute SimOn))
    10 0 fresh =
  (Raise TimeoutError,
   mkWorld 2 [] [Flush; CmdAlign (Some M2) 120 0; NextOffsets 60 None]).
Proof.
  apply (align_loop_no_feedback (mute SimOn) (m2_script 10)
           (offset_m2_hexapod (mute SimOn)) 9 0 fresh); reflexivity.
Defined.

Lemma corrections_nan_witness :
  corrections (m2_script 10) unreadable = [0; 0; 0; 0; 0]%float ∧
  any (corrections (m2_script 10) unreadable) = false.
Proof.
  apply (corrections_nan (m2_script 10) unreadable);
    vm_compute; reflexivity.
Defined.

Lemma corrections_dRX_iff_witness :
  truthy 1%float = true ↔
  (tolerance_angular (m2_script 10) <? abs (dRX skewed))%float = true.
Proof.
  apply (corrections_dRX_iff (m2_script 10) skewed 1%float).
  - vm_compute. reflexivity.
  - reflexivity.
Defined.

Lemma align_target_exhausts_witness :
  ∃ w' T,
    align_target (steady skewed SimOn) (m2_script 3) fresh =
      (Raise (RuntimeError
                ("Failed to align " +:+ format_target (Some M2)
                 +:+ " after " +:+ pretty 3%Z +:+ " iterations.")), w') ∧
    trace w' = trace fresh ++ T ∧
    count is_cmd_align T = 3 ∧
    count is_next T = 3 ∧
    count is_move T = 3.
Proof.
  apply (align_target_exhausts (steady skewed SimOn) (m2_script 3) fresh
           (offset_m2_hexapod (steady skewed SimOn))).
  - reflexivity.
  - cbn -[read_feedback corrections any neg offset_m2_hexapod].
    repeat (eexists _, _, _;
            split_and!; [vm_compute; reflexivity .. |]).
    exact I.
Defined.

End AlignExtra.

(** * Further properties of the historical-state locator *)

Module SyncDOFExtra.
Import SyncDOF SyncDOFSpec.

(** Either the first eight windows are all empty, or one of them is the
    first with a row. *)
Lemma first_window_cases (client : EfdClient) (t : Time) :
  (∀ i, 1 ≤ i ≤ 8 → window_frame client t i = []) ∨
  ∃ k row, 1 ≤ k ≤ 8 ∧
    (∀ i, 1 ≤ i < k → window_frame client t i = []) ∧
    last (window_frame client t k) = Some row.
Proof.
  assert (Hcases : ∀ n,
            (∀ i, 1 ≤ i ≤ n → window_frame client t i = []) ∨
            ∃ k row, 1 ≤ k ≤ n ∧
              (∀ i, 1 ≤ i < k → window_frame client t i = []) ∧
              last (window_frame client t k) = Some row).
  { induction n as [|n [Hempty | (k & row & Hk & Hempty & Hlast)]].
    - left. intros i Hi. lia.
    - destruct (last (window_frame client t (S n))) as [row|] eqn:Hlast.
      + right. exists (S n), row. split_and!; [lia|lia| |done].
        intros i Hi. apply Hempty. lia.
      + left. intros i Hi. destruct (decide (i = S n)) as [->|Hne].
        * by apply last_None.
        * apply Hempty. lia.
    - right. exists k, row. split_and!; [lia|lia|done|done]. }
  apply Hcases.
Qed.


(** X14: over an archive, whatever its order, the state returned is either
    the fifty zeros or the values of an archived sample that lies between
    eight days before the reference time and the reference time: never a
    sample after the reference time, never an older one. *)
Theorem get_last_issued_state_provenance (closed_end : bool)
    (archive : DataFrame) (t : Time) (fuel : nat) (tr : Trace) :
  8 ≤ fuel →
  ∃ state tr',
    get_last_issued_state fuel (archive_client closed_end archive) t tr =
      (Ok (Some state), tr') ∧
    (state = zeros 50 ∨
     ∃ row, row ∈ archive ∧ state = values row ∧
       (window_start t 8 ≤ index row)%Qc ∧ (index row ≤ t)%Qc).
Proof.
  intros Hfuel.
  destruct (first_window_cases (archive_client closed_end archive) t)
    as [Hempty | (n & row & Hn & Hempty & Hlast)];
    [rewrite (get_last_issued_state_miss _ t) by done
    |rewrite (get_last_issued_state_hit _ t n _ _ row) by done].
  2: { eexists _, _. split; [done|]. right. exists row.
    rewrite window_frame_archive in Hlast.
    apply last_Some_elem_of, list_elem_of_filter in Hlast
      as [[Hstart Hend] Hin].
    split_and!; [done|done| |].
    + eapply Qcle_trans; [|exact Hstart]. apply window_start_anti. lia.
    + eapply Qcle_trans; [|apply (window_end_le t n)].
      destruct closed_end; [done|by apply Qclt_le_weak]. }
  eexists _, _. split; [done|]. by left.
Qed.


Lemma get_last_issued_state_provenance_witness :
  ∃ state tr',
    get_last_issued_state 8 (archive_client false archive_8_days) t20 [] =
      (Ok (Some state), tr') ∧
    (state = zeros 50 ∨
     ∃ row, row ∈ archive_8_days ∧ state = values row ∧
       (window_start t20 8 ≤ index row)%Qc ∧ (index row ≤ t20)%Qc).
Proof.
  apply (get_last_issued_state_provenance false archive_8_days t20 8 []).
  lia.
Defined.

End SyncDOFExtra.

(** * The DOF setting script *)

Module SetDOFExtra.
Import SetDOF.

(** X16: [get_image_time] performs the query once and returns the time of
    the first row; when the query raises, whatever the exception, or
    returns no row, the error raised is the [RuntimeError] that names the
    image - an [IndexError] never escapes. *)
Theorem get_image_time_errors (client : EfdClient) (day seq : Z) (tr : Trace) :
  get_image_time client day seq tr =
  (match influx_query client day seq with
   | Ok (row :: _) => Ok (SyncDOF.index row)
   | Ok [] | Raise _ =>
       Raise (RuntimeError
                ("Error querying time for image " +:+ pretty day +:+ ":"
                 +:+ pretty seq +:+ "."))
   end,
   tr ++ [InfluxQuery day seq]).
Proof.
  unfold get_image_time, try_except, lift, emit, bind, ret, raise.
  by destruct (influx_query client day seq) as [[|row rows]|e].
Qed.

Lemma window_start_1 (t : SyncDOF.Time) :
  (t - SyncDOF.lookback_interval)%Qc = SyncDOF.window_start t 1.
Proof.
  rewrite <- (SyncDOFSpec.window_end_step t 1) by done.
  by rewrite SyncDOFSpec.window_end_1.
Qed.

(** X17: the locator of [SetDOF] looks back one day only: it makes a single
    query, of the day before [end_time], and returns the last row of that
    frame, or fifty zeros with a warning when the frame is empty. When the
    frame is not empty the locator of [SyncDOF] returns the same state. *)
Theorem get_last_issued_state_one_day (client : EfdClient)
    (end_time : SyncDOF.Time) (tr : Trace) :
  get_last_issued_state client end_time tr =
  (Ok (match last (SyncDOF.window_frame (series client) end_time 1) with
       | Some row => SyncDOF.values row
       | None => SyncDOF.zeros 50
       end),
   tr ++
   SelectTimeSeries "lsst.sal.MTAOS.logevent_degreeOfFreedom" SyncDOF.topics
     (end_time - SyncDOF.lookback_interval)%Qc end_time
   :: match last (SyncDOF.window_frame (series client) end_time 1) with
      | Some _ => []
      | None => [LogWarning "No state found."]
      end) ∧
  ∀ (fuel : nat) (tr' : SyncDOF.Trace) (row : SyncDOF.Row),
    1 ≤ fuel →
    last (SyncDOF.window_frame (series client) end_time 1) = Some row →
    (SyncDOF.get_last_issued_state fuel (series client) end_time tr').1
    = Ok (Some (SyncDOF.values row)).
Proof.
  split.
  - unfold get_last_issued_state, SyncDOF.window_frame, emit, bind, ret.
    cbv zeta. rewrite window_start_1, SyncDOFSpec.window_end_1.
    destruct (last _); [done|]. by rewrite <- app_assoc.
  - intros fuel tr' row Hfuel Hlast.
    unfold SyncDOF.get_last_issued_state.
    rewrite <- (SyncDOFSpec.window_end_1 end_time) at 2.
    rewrite (SyncDOFSpec.lookback_loop_hit (series client) end_time 0 1
               fuel tr' row); (done || lia).
Qed.

Lemma get_last_issued_state_one_day_witness :
  (SyncDOF.get_last_issued_state 8
     (SyncDOF.archive_client true [SyncDOF.mkRow (Q2Qc (39 # 2)) (SyncDOF.ones 50)])
     SyncDOF.t20 []).1
  = Ok (Some (SyncDOF.ones 50)).
Proof.
  apply (proj2 (get_last_issued_state_one_day
                  (mkEfdClient
                     (SyncDOF.archive_client true
                        [SyncDOF.mkRow (Q2Qc (39 # 2)) (SyncDOF.ones 50)])
                     (λ _ _, Ok []))
                  SyncDOF.t20 [])
           8 [] (SyncDOF.mkRow (Q2Qc (39 # 2)) (SyncDOF.ones 50))).
  - lia.
  - vm_compute. reflexivity.
Defined.

(** A sample 2.5 days back: found by [SyncDOF], not by [SetDOF]. *)
Example one_day_only :
  (get_last_issued_state
     (mkEfdClient (SyncDOF.archive_client true SyncDOF.archive_3_days)
        (λ _ _, Ok []))
     SyncDOF.t20 []).1 = Ok (SyncDOF.zeros 50) ∧
  (SyncDOF.get_last_issued_state 8
     (SyncDOF.archive_client true SyncDOF.archive_3_days) SyncDOF.t20 []).1
  = Ok (Some (SyncDOF.ones 50)).
Proof. split; vm_compute; reflexivity. Qed.

Lemma lookup_zeros (n i : nat) :
  i < n → SyncDOF.zeros n !! i = Some 0%float.
Proof.
  revert i. induction n as [|n IH]; intros [|i] Hi; try lia; [done|].
  apply IH. lia.
Qed.

Section Run.

Variable repr : string → string.

(** X18: with [day] and [seq] configured and [LSST_SITE] unset or not one
    of tucson, base and summit, [run] raises the cannot-connect error right
    after the feasibility check: no client, no checkpoint, no read of the
    current state, no command. *)
Theorem run_unknown_site (env : Env) (self : Script) (tr : Trace) (d s : Z) :
  day self = Some d → seq self = Some s →
  feasible env = true →
  LSST_SITE env = None ∨
  (∃ site, LSST_SITE env = Some site ∧
     site ≠ "tucson" ∧ site ≠ "base" ∧ site ≠ "summit") →
  ∃ msg,
    run repr env self tr =
      (Raise (RuntimeError ("Unable to connect to EFD: " +:+ msg)),
       tr ++ [AssertFeasibility]) ∧
    msg = match LSST_SITE env with
          | None => "LSST_SITE environment variable not defined"
          | Some site => "No image server url for site=" +:+ repr site +:+ "."
          end.
Proof.
  intros Hd Hs Hf Hsite.
  unfold run, locate_dofs, assert_feasibility, emit, bind, ret, raise.
  rewrite Hf, Hd, Hs.
  destruct Hsite as [-> | (site & -> & H1 & H2 & H3)].
  - by eexists.
  - assert (EFD_SERVER_URL !! site = None) as ->.
    { unfold EFD_SERVER_URL.
      rewrite !lookup_insert_ne by done. by apply lookup_singleton_ne. }
    by eexists.
Qed.

(** X19: with [day] and [seq] configured, [run] never sends the offset
    command and never queries the archive, whatever the site and the
    collaborators: it raises. *)
Theorem run_day_seq_raises (env : Env) (self : Script) (tr : Trace) (d s : Z) :
  day self = Some d → seq self = Some s →
  ∃ e tr',
    run repr env self tr = (Raise e, tr ++ tr') ∧
    Forall (λ a, is_query_or_offset a = false) tr'.
Proof.
  intros Hd Hs.
  unfold run, locate_dofs, assert_feasibility, evt_degreeOfFreedom_aget,
    lift, emit, bind, ret, raise.
  rewrite Hd, Hs.
  destruct (feasible env); cbn.
  - destruct (LSST_SITE env) as [site|]; cbn.
    + destruct (EFD_SERVER_URL !! site); cbn.
      * destruct (degreeOfFreedom env); cbn; eexists _, _;
          rewrite <- !app_assoc; (split; [reflexivity|]);
          repeat constructor.
      * eexists _, _. split; [reflexivity|]. repeat constructor.
    + eexists _, _. split; [reflexivity|]. repeat constructor.
  - eexists _, _. split; [reflexivity|]. repeat constructor.
Qed.

(** X20: without [day] and [seq], with the configured [dofs] an array no
    longer than the current state and the command, [run] checks
    feasibility, reads the current state and sends one offset command whose
    entry [i] is [dofs[i] - current[i]] for every index of [dofs], the other
    entries zero. *)
Theorem run_configured_dofs (env : Env) (self : Script) (tr : Trace)
    (target current : list float) :
  day self = None ∨ seq self = None →
  dofs self = SyncDOF.PyArray target →
  feasible env = true →
  degreeOfFreedom env = Some current →
  offsetDOF_acked env = true →
  length target ≤ length current →
  length target ≤ dof_width env →
  ∃ v,
    run repr env self tr =
      (Ok tt,
       tr ++ [AssertFeasibility; Checkpoint "Setting DOF...";
              AgetDegreeOfFreedom 30; CmdOffsetDOF v]) ∧
    length v = dof_width env ∧
    (∀ i x c, target !! i = Some x → current !! i = Some c →
       v !! i = Some (x - c)%float) ∧
    (∀ i, length target ≤ i < dof_width env → v !! i = Some 0%float).
Proof.
  intros Hday Hdofs Hf Hcur Hack Hlen Hwidth.
  destruct (SyncDOFSpec.dof_offsets_ok current target 0
              (SyncDOF.zeros (dof_width env)))
    as (v & Hv & Hlenv & Hset & Hkeep).
  { done. }
  { unfold SyncDOF.zeros. rewrite repeat_length. done. }
  exists v. unfold SyncDOF.zeros in Hlenv. rewrite repeat_length in Hlenv.
  split_and!; [|done| |].
  - unfold run, locate_dofs, assert_feasibility, evt_degreeOfFreedom_aget,
      cmd_offsetDOF_start, lift, emit, bind, ret, raise.
    rewrite Hf.
    assert (match day self, seq self with
            | Some _, Some _ => false | _, _ => true end = true) as Hnone.
    { destruct Hday as [-> | ->]; [done|by destruct (day self)]. }
    destruct (day self), (seq self); try discriminate;
      cbn; rewrite Hcur, Hdofs; cbn; rewrite Hv, Hack;
      by rewrite <- !app_assoc.
  - intros i x c. apply (Hset i x c).
  - intros i Hi. rewrite Hkeep by lia.
    apply lookup_zeros. lia.
Qed.

End Run.

Lemma run_unknown_site_witness :
  ∃ msg,
    run quote (sim_env (Some "paris") (SyncDOF.zeros 50))
      (mkScript (Some 20230101%Z) (Some 1%Z) (SyncDOF.PyArray [])) [] =
      (Raise (RuntimeError ("Unable to connect to EFD: " +:+ msg)),
       [] ++ [AssertFeasibility]) ∧
    msg = "No image server url for site=" +:+ quote "paris" +:+ ".".
Proof.
  apply (run_unknown_site quote (sim_env (Some "paris") (SyncDOF.zeros 50))
           (mkScript (Some 20230101%Z) (Some 1%Z) (SyncDOF.PyArray [])) []
           20230101 1).
  - reflexivity.
  - reflexivity.
  - reflexivity.
  - right. exists "paris". split_and!; [reflexivity|done|done|done].
Defined.

Lemma run_day_seq_raises_witness :
  ∃ e tr',
    run quote (sim_env (Some "summit") (SyncDOF.zeros 50))
      (mkScript (Some 20230101%Z) (Some 1%Z) (SyncDOF.PyArray [])) [] =
      (Raise e, [] ++ tr') ∧
    Forall (λ a, is_query_or_offset a = false) tr'.
Proof.
  apply (run_day_seq_raises quote (sim_env (Some "summit") (SyncDOF.zeros 50))
           (mkScript (Some 20230101%Z) (Some 1%Z) (SyncDOF.PyArray [])) []
           20230101 1); reflexivity.
Defined.

Lemma run_configured_dofs_witness :
  ∃ v,
    run quote (sim_env None (SyncDOF.ones 50))
      (mkScript None None (SyncDOF.PyArray [1; 2; 3]%float)) [] =
      (Ok tt,
       [] ++ [AssertFeasibility; Checkpoint "Setting DOF...";
              AgetDegreeOfFreedom 30; CmdOffsetDOF v]) ∧
    length v = 50 ∧
    (∀ i x c, [1; 2; 3]%float !! i = Some x → SyncDOF.ones 50 !! i = Some c →
       v !! i = Some (x - c)%float) ∧
    (∀ i, length [1; 2; 3]%float ≤ i < 50 → v !! i = Some 0%float).
Proof.
  apply (run_configured_dofs quote (sim_env None (SyncDOF.ones 50))
           (mkScript None None (SyncDOF.PyArray [1; 2; 3]%float)) []
           [1; 2; 3]%float (SyncDOF.ones 50)).
  - by left.
  - reflexivity.
  - reflexivity.
  - reflexivity.
  - reflexivity.
  - vm_compute. lia.
  - vm_compute. lia.
Defined.

End SetDOFExtra.

(** * Taking a group offline *)

Module OfflineGroupExtra.
Import OfflineGroup.

(** X21: the [ignore] loop never fails. It leaves one record per name, in
    order - a warning for a name outside the group, a debug record for a
    component - and it clears the flag of exactly the listed names that are
    components of the group: every other flag is as before, a name outside
    the group gets no flag, and no flag is ever set. *)
Theorem ignore_loop_check (components ignore : list string) (w : World) :
  ∃ check',
    ignore_loop components ignore w =
      (Ok tt,
       mkWorld check' (trace w ++ map (ignore_record components) ignore)) ∧
    ∀ comp,
      check' !! comp =
      if decide (comp ∈ ignore ∧ comp ∈ components) then Some false
      else check w !! comp.
Proof.
  revert w. induction ignore as [|name rest IH]; intros w.
  { exists (check w). cbn. rewrite app_nil_r. split; [by destruct w|].
    intros comp. rewrite decide_False; [done|]. intros [Hin _].
    by apply not_elem_of_nil in Hin. }
  cbn [ignore_loop map]. unfold bind at 1.
  unfold ignore_record at 1.
  destruct (bool_decide (name ∉ components)) eqn:Hname.
  - apply bool_decide_eq_true in Hname. cbn.
    destruct (IH (mkWorld (check w) (trace w ++ [LogWarning name])))
      as (check' & -> & Hcheck).
    exists check'. cbn. split; [by rewrite <- app_assoc|].
    intros comp. rewrite Hcheck. cbn [check].
    destruct (decide (comp ∈ rest ∧ comp ∈ components)) as [[Hr Hc]|Hno].
    + rewrite decide_True; [done|]. split; [by right|done].
    + rewrite decide_False; [done|]. intros [Hin Hc].
      apply elem_of_cons in Hin as [->|Hin]; [done|]. by apply Hno.
  - apply bool_decide_eq_false in Hname. apply dec_stable in Hname.
    unfold bind, emit, setattr_check. cbn.
    destruct (IH (mkWorld (<[name:=false]> (check w))
                    (trace w ++ [LogDebug name])))
      as (check' & -> & Hcheck).
    exists check'. cbn. split; [by rewrite <- app_assoc|].
    intros comp. rewrite Hcheck. cbn [check].
    destruct (decide (comp ∈ rest ∧ comp ∈ components)) as [[Hr Hc]|Hno].
    + rewrite decide_True; [done|]. split; [by right|done].
    + destruct (decide (comp = name)) as [->|Hne].
      * rewrite lookup_insert_eq. rewrite decide_True; [done|].
        split; [by left|done].
      * rewrite lookup_insert_ne by done.
        rewrite decide_False; [done|]. intros [Hin Hc].
        apply elem_of_cons in Hin as [->|Hin]; [done|]. by apply Hno.
Qed.

(** The loop succeeds, leaves its records, and sets no flag. *)
Lemma ignore_loop_sets_nothing (components ignore : list string) (w : World) :
  ∃ check',
    ignore_loop components ignore w =
      (Ok tt,
       mkWorld check' (trace w ++ map (ignore_record components) ignore)) ∧
    ∀ comp, check' !! comp = Some true → check w !! comp = Some true.
Proof.
  revert w. induction ignore as [|name rest IH]; intros w.
  { exists (check w). cbn. rewrite app_nil_r. by destruct w. }
  cbn [ignore_loop map]. unfold bind at 1. unfold ignore_record at 1.
  destruct (bool_decide (name ∉ components)); unfold bind, emit, setattr_check;
    cbn.
  - destruct (IH (mkWorld (check w) (trace w ++ [LogWarning name])))
      as (check' & -> & Hcheck).
    exists check'. cbn. by rewrite <- app_assoc.
  - destruct (IH (mkWorld (<[name:=false]> (check w))
                    (trace w ++ [LogDebug name])))
      as (check' & -> & Hcheck).
    exists check'. cbn. split; [by rewrite <- app_assoc|].
    intros comp Htrue. apply Hcheck in Htrue. cbn in Htrue.
    destruct (decide (comp = name)) as [->|Hne].
    + by rewrite lookup_insert_eq in Htrue.
    + by rewrite lookup_insert_ne in Htrue.
Qed.

(** X22: [run] calls [offline] exactly once, as its last operation, after
    the records of the ignored names, and the group it takes offline has
    the flags the loop left: without an [ignore] list the flags of the
    group are untouched, and a flag that is true at [offline] was already
    true before the run. *)
Theorem run_offline_last (components : list string)
    (ignore : option (list string)) (succeeds : bool) (w : World) :
  ∃ check',
    run components ignore succeeds w =
      (if succeeds then Ok tt else Raise (RuntimeError "offline failed"),
       mkWorld check'
         (trace w ++ map (ignore_record components) (default [] ignore)
          ++ [Offline check'])) ∧
    (ignore = None → check' = check w) ∧
    ∀ comp, check' !! comp = Some true → check w !! comp = Some true.
Proof.
  unfold run, bind at 1. destruct ignore as [names|]; cbn [default].
  - destruct (ignore_loop_sets_nothing components names w)
      as (check' & -> & Hcheck).
    exists check'. split_and!.
    + unfold group_offline, bind. cbn. rewrite <- app_assoc.
      by destruct succeeds.
    + done.
    + done.
  - exists (check w). split_and!; [|done|done].
    unfold group_offline, bind, ret. cbn. by destruct succeeds.
Qed.

End OfflineGroupExtra.

(** * Formatting helpers *)

Module UtilsExtra.
Import Utils.

Lemma times_length {A} (a : A) (r : Z) :
  (0 ≤ r)%Z → Z.of_nat (length (times a r)) = r.
Proof. intros Hr. unfold times. rewrite repeat_length. lia. Qed.

Lemma times_elem {A} (a x : A) (r : Z) : x ∈ times a r → x = a.
Proof.
  unfold times. intros Hx%list_elem_of_In. by apply repeat_spec in Hx.
Qed.

(** X23: [format_as_list] raises exactly for a sequence whose length is not
    [recurrences]. When it returns and [recurrences] is not negative, the
    list has [recurrences] entries and is accepted unchanged by a second
    call; a sequence is returned as it is, a scalar is repeated. For a
    scalar and a negative [recurrences] the list is empty. *)
Theorem format_as_list_spec {A} (value : Arg A) (recurrences : Z) :
  (∀ e, format_as_list value recurrences = inl e ↔
        ∃ l, value = Sequence l ∧ Z.of_nat (length l) ≠ recurrences ∧
             e = ValueError (length l) recurrences) ∧
  (∀ l, format_as_list value recurrences = inr l →
        ((0 ≤ recurrences)%Z →
         Z.of_nat (length l) = recurrences ∧
         format_as_list (Sequence l) recurrences = inr l) ∧
        ((recurrences < 0)%Z → l = []) ∧
        match value with
        | Scalar a => ∀ x, x ∈ l → x = a
        | Sequence l0 => l = l0
        end).
Proof.
  split.
  - intros e. unfold format_as_list. destruct value as [a|l0].
    + split; [discriminate|]. by intros (l & [=] & _).
    + case_bool_decide as Hlen.
      * split.
        -- intros [= <-]. by exists l0.
        -- by intros (l & [= <-] & _ & ->).
      * split; [discriminate|]. by intros (l & [= <-] & Hne & _).
  - intros l Hl. unfold format_as_list in *. destruct value as [a|l0].
    + injection Hl as <-. split_and!.
      * intros Hr. split; [by apply times_length|].
        rewrite bool_decide_false; [done|].
        intros Hne. apply Hne. by apply times_length.
      * intros Hr. unfold times. by replace (Z.to_nat recurrences) with 0 by lia.
      * intros x. apply times_elem.
    + case_bool_decide as Hlen; [discriminate|]. injection Hl as <-.
      split_and!; [|lia|done].
      intros _. split; [done|]. rewrite bool_decide_false; [done|].
      by intros Hne.
Qed.

(** X24: [format_grid] raises exactly when both inputs are sequences of
    different lengths. When it returns, the two lists have the same length,
    a sequence is returned as it is, and a scalar is repeated to the length
    of the other list (once when both are scalars). *)
Theorem format_grid_spec {A} (axis1 axis2 : Arg A) :
  (∀ e, format_grid axis1 axis2 = inl e ↔
        ∃ l1 l2, axis1 = Sequence l1 ∧ axis2 = Sequence l2 ∧
                 length l1 ≠ length l2 ∧
                 e = GridError
                       ("Array sizes must be the same. Got "
                        +:+ pretty (length l1) +:+ " and "
                        +:+ pretty (length l2) +:+ ".")) ∧
  (∀ l1 l2, format_grid axis1 axis2 = inr (l1, l2) →
        length l1 = length l2 ∧
        match axis1 with
        | Scalar a => ∀ x, x ∈ l1 → x = a
        | Sequence l => l1 = l
        end ∧
        match axis2 with
        | Scalar a => ∀ x, x ∈ l2 → x = a
        | Sequence l => l2 = l
        end ∧
        match axis1, axis2 with
        | Scalar _, Scalar _ => length l1 = 1
        | _, _ => True
        end).
Proof.
  split.
  - intros e. unfold format_grid, format_as_list.
    destruct axis1 as [a1|l1], axis2 as [a2|l2];
      try (split; [discriminate|by intros (? & ? & [=] & [=] & _)]).
    case_bool_decide as Hlen.
    + split.
      * intros [= <-]. by exists l1, l2.
      * by intros (? & ? & [= <-] & [= <-] & _ & ->).
    + split; [discriminate|].
      by intros (? & ? & [= <-] & [= <-] & Hne & _).
  - intros l1 l2. unfold format_grid, format_as_list.
    destruct axis1 as [a1|l1'], axis2 as [a2|l2'].
    + intros [= <- <-]. split_and!; try done.
      * by intros x ->%list_elem_of_singleton.
      * by intros x ->%list_elem_of_singleton.
    + intros [= <- <-]. split_and!; try done.
      * unfold times. rewrite repeat_length. lia.
      * intros x. apply times_elem.
    + intros [= <- <-]. split_and!; try done.
      * unfold times. rewrite repeat_length. lia.
      * intros x. apply times_elem.
    + case_bool_decide as Hlen; [discriminate|]. by intros [= <- <-].
Qed.

Lemma S3_INSTANCES_lookup (s : string) :
  S3_INSTANCES !! s =
  if decide (s = "tucson") then Some "tuc"
  else if decide (s = "base") then Some "ls"
  else if decide (s = "summit") then Some "cp"
  else None.
Proof.
  unfold S3_INSTANCES.
  repeat (case_decide; [subst; by rewrite ?lookup_insert_ne, ?lookup_insert_eq,
                          ?lookup_singleton_eq by done|]).
  rewrite !lookup_insert_ne by done. by apply lookup_singleton_ne.
Qed.

(** X25: [get_s3_bucket] asks for the creation of the bucket exactly when
    it mocks it; it mocks exactly when the instance name is the text mock,
    and that is exactly when [LSST_SITE] is unset or not one of tucson, base
    and summit. *)
Theorem get_s3_bucket_mock (make_bucket_name : string → string)
    (site : option string) :
  let bucket := get_s3_bucket make_bucket_name site in
  create bucket = domock bucket ∧
  name bucket = make_bucket_name (s3instance_of site) ∧
  (domock bucket = true ↔ s3instance_of site = "mock") ∧
  (domock bucket = false ↔
   site = Some "tucson" ∨ site = Some "base" ∨ site = Some "summit").
Proof.
  cbv zeta. unfold get_s3_bucket, s3instance_of. cbn [create domock name].
  split; [done|]. split; [done|].
  destruct site as [s|].
  - rewrite S3_INSTANCES_lookup.
    repeat case_decide; subst; cbn; split; split;
      try done; try discriminate; intros; simplify_eq; try tauto.
    all: by destruct_or!; simplify_eq.
  - split; [done|]. split; [discriminate|]. by intros [|[|]].
Qed.

Lemma format_as_list_spec_witness :
  Z.of_nat (length [5; 5; 5]%Z) = 3%Z ∧
  format_as_list (Sequence [5; 5; 5]%Z) 3 = inr [5; 5; 5]%Z.
Proof.
  apply (proj1 (proj2 (format_as_list_spec (Scalar 5%Z) 3) [5; 5; 5]%Z
                  eq_refl)).
  lia.
Defined.

Lemma format_grid_spec_witness :
  length [1; 1]%Z = length [7; 8]%Z ∧
  (∀ x, x ∈ [1; 1]%Z → x = 1%Z) ∧ [7; 8]%Z = [7; 8]%Z ∧ True.
Proof.
  apply (proj2 (format_grid_spec (Scalar 1%Z) (Sequence [7; 8]%Z))
           [1; 1]%Z [7; 8]%Z eq_refl).
Defined.

(** ** Counting heartbeats *)

Lemma bump_keys (idx : Z) (hs : list (Z * Z)) :
  map fst (bump idx hs) =
  if decide (idx ∈ map fst hs) then map fst hs else map fst hs ++ [idx].
Proof.
  induction hs as [|[k v] hs IH]; [done|].
  cbn [bump]. destruct (decide (k = idx)) as [->|Hne]; cbn.
  - rewrite decide_True; [done|]. left.
  - rewrite IH. destruct (decide (idx ∈ map fst hs)) as [Hin|Hnot].
    + rewrite decide_True; [done|]. by right.
    + rewrite decide_False; [done|].
      intros [->|Hin]%elem_of_cons; done.
Qed.

Lemma elem_of_bump (idx : Z) (hs : list (Z * Z)) (k v : Z) :
  NoDup (map fst hs) →
  (k, v) ∈ bump idx hs ↔
  (k ≠ idx ∧ (k, v) ∈ hs) ∨
  (k = idx ∧ ((∃ v0, (idx, v0) ∈ hs ∧ v = (v0 + 1)%Z) ∨
              ((idx ∉ map fst hs) ∧ v = 1%Z))).
Proof.
  induction hs as [|[k0 v0] hs IH]; intros Hnd.
  - cbn. rewrite list_elem_of_singleton. split.
    + intros [= -> ->]. right. split; [done|]. right. split; [|done].
      apply not_elem_of_nil.
    + intros [[_ Hin]|[-> [(v0 & Hin & _)|[_ ->]]]];
        [by apply not_elem_of_nil in Hin|by apply not_elem_of_nil in Hin|done].
  - cbn [map fst] in Hnd. apply NoDup_cons in Hnd as [Hk0 Hnd].
    cbn [bump]. destruct (decide (k0 = idx)) as [->|Hne].
    + rewrite !elem_of_cons. split.
      * intros [[= -> ->]|Hin].
        -- right. split; [done|]. left. exists v0. split; [by left|done].
        -- left. split; [|by right]. intros ->. apply Hk0.
           apply list_elem_of_fmap. by exists (idx, v).
      * intros [[Hk [[= -> ->]|Hin]]|[-> [(v1 & Hin & ->)|[Hno _]]]].
        -- done.
        -- by right.
        -- apply elem_of_cons in Hin as [[= ->]|Hin]; [by left|].
           destruct Hk0. apply list_elem_of_fmap. by exists (idx, v1).
        -- destruct Hno. cbn. left.
    + rewrite elem_of_cons, (IH Hnd). cbn [map fst]. split.
      * intros [[= -> ->]|[[Hk Hin]|[-> [(v1 & Hin & ->)|[Hno ->]]]]].
        -- left. split; [done|left].
        -- left. split; [done|by right].
        -- right. split; [done|]. left. exists v1. split; [by right|done].
        -- right. split; [done|]. right. split; [|done].
           intros [->|Hin]%elem_of_cons; done.
      * intros [[Hk [[= -> ->]|Hin]%elem_of_cons]
               |[-> [(v1 & Hin & ->)|[Hno ->]]]].
        -- by left.
        -- right. left. done.
        -- apply elem_of_cons in Hin as [[= -> ->]|Hin]; [done|].
           right. right. split; [done|]. left. by exists v1.
        -- right. right. split; [done|]. right. split; [|done].
           intros Hin. apply Hno. by right.
Qed.

Lemma occurrences_snoc (k : Z) (pre : list (option Z)) (hb : option Z) :
  occurrences k (pre ++ [hb]) =
  (occurrences k pre + if decide (sal_index hb = k) then 1 else 0)%Z.
Proof.
  unfold occurrences. rewrite filter_app, length_app, Nat2Z.inj_add.
  f_equal. rewrite filter_cons, filter_nil. by case_decide.
Qed.

Lemma occurrences_nonneg (k : Z) (hbs : list (option Z)) :
  (0 ≤ occurrences k hbs)%Z.
Proof. unfold occurrences. lia. Qed.

Lemma occurrences_pos (k : Z) (hbs : list (option Z)) :
  (0 < occurrences k hbs)%Z ↔ k ∈ map sal_index hbs.
Proof.
  unfold occurrences. rewrite list_elem_of_fmap. split.
  - intros Hpos.
    destruct (filter (λ hb, sal_index hb = k) hbs) as [|hb l] eqn:Hf;
      [cbn in Hpos; lia|].
    assert (hb ∈ filter (λ hb, sal_index hb = k) hbs) as Hin
      by (rewrite Hf; left).
    apply list_elem_of_filter in Hin as [Hk Hin]. by exists hb.
  - intros (hb & -> & Hin).
    assert (hb ∈ filter (λ hb', sal_index hb' = sal_index hb) hbs) as Hin'
      by by apply list_elem_of_filter.
    destruct (filter _ hbs); [by apply not_elem_of_nil in Hin'|cbn; lia].
Qed.

Lemma tallies_bump (pre : list (option Z)) (hs : list (Z * Z))
    (hb : option Z) :
  tallies pre hs → tallies (pre ++ [hb]) (bump (sal_index hb) hs).
Proof.
  intros [Hnd Htally]. split.
  - rewrite bump_keys. case_decide as Hin; [done|].
    apply NoDup_app. split_and!; [done| |apply NoDup_singleton].
    intros k Hk ->%list_elem_of_singleton. done.
  - intros k v. rewrite (elem_of_bump _ _ _ _ Hnd), occurrences_snoc.
    pose proof (occurrences_nonneg k pre) as Hnn.
    split.
    + intros [[Hne Hin]|[-> [(v0 & Hin & ->)|[Hno ->]]]].
      * apply Htally in Hin as [-> Hpos]. rewrite decide_False by done. lia.
      * apply Htally in Hin as [-> Hpos]. rewrite decide_True by done. lia.
      * rewrite decide_True by done.
        assert (occurrences (sal_index hb) pre = 0%Z) as ->; [|done].
        destruct (decide (0 < occurrences (sal_index hb) pre)%Z) as [Hp|]; [|lia].
        destruct Hno. apply list_elem_of_fmap.
        exists (sal_index hb, occurrences (sal_index hb) pre).
        split; [done|]. by apply Htally.
    + intros [-> Hpos]. case_decide as Hk.
      * subst k. right. split; [done|].
        destruct (decide (0 < occurrences (sal_index hb) pre)%Z) as [Hp|Hz].
        -- left. exists (occurrences (sal_index hb) pre).
           split; [by apply Htally|done].
        -- right. split; [|lia].
           intros ((k' & v') & Hk' & Hin)%list_elem_of_fmap. cbn in Hk'.
           subst k'. apply Htally in Hin. lia.
      * left. split; [done|]. apply Htally. lia.
Qed.

Lemma all_below_false (min_heartbeat : Z) (hs : list (Z * Z)) :
  all_below min_heartbeat hs = false →
  ∃ k v, (k, v) ∈ hs ∧ (min_heartbeat ≤ v)%Z.
Proof.
  induction hs as [|[k v] hs IH]; [discriminate|]. cbn.
  case_bool_decide as Hv; cbn.
  - intros (k' & v' & Hin & Hle)%IH. exists k', v'. split; [by right|done].
  - intros _. exists k, v. split; [left|lia].
Qed.

Lemma all_below_true (min_heartbeat : Z) (hs : list (Z * Z)) (k v : Z) :
  all_below min_heartbeat hs = true →
  (k, v) ∈ hs → (v < min_heartbeat)%Z.
Proof.
  induction hs as [|[k0 v0] hs IH]; cbn.
  - by intros _ Hin%not_elem_of_nil.
  - intros [Hv Hall]%andb_prop [[= -> ->]|Hin]%elem_of_cons.
    + by apply bool_decide_eq_true in Hv.
    + by apply IH.
Qed.

(** The loop from a dictionary that tallies the heartbeats [pre]: at every
    heartbeat it goes on to read, no index had reached [min_heartbeat]. *)
Lemma heartbeat_loop_spec (min_heartbeat : Z) (hbs : list (option Z)) :
  ∀ hs read pre,
    tallies pre hs → read = length pre →
    ∃ mid post,
      hbs = mid ++ post ∧
      (heartbeat_loop min_heartbeat hbs hs read).2 = length (pre ++ mid) ∧
      tallies (pre ++ mid) (heartbeat_loop min_heartbeat hbs hs read).1 ∧
      (∀ mid1 mid2, mid = mid1 ++ mid2 → mid2 ≠ [] →
         ∀ k, k ∈ map sal_index (pre ++ mid1) →
              (occurrences k (pre ++ mid1) < min_heartbeat)%Z) ∧
      (post = [] ∨
       ∃ k, k ∈ map sal_index (pre ++ mid) ∧
            (min_heartbeat ≤ occurrences k (pre ++ mid))%Z).
Proof.
  induction hbs as [|hb hbs IH]; intros hs read pre Htally ->.
  - exists [], []. rewrite (app_nil_r pre). cbn.
    assert (∀ mid1 mid2 : list (option Z),
              [] = mid1 ++ mid2 → mid2 ≠ [] →
              ∀ k, k ∈ map sal_index (pre ++ mid1) →
                   (occurrences k (pre ++ mid1) < min_heartbeat)%Z) as Hnone.
    { intros mid1 mid2 Heq Hne. symmetry in Heq.
      apply app_eq_nil in Heq as [_ ->]. done. }
    destruct (all_below min_heartbeat hs); cbn; split_and!; try done;
      by left.
  - cbn [heartbeat_loop].
    destruct (all_below min_heartbeat hs) eqn:Hall.
    + destruct (IH (bump (sal_index hb) hs) (S (length pre)) (pre ++ [hb]))
        as (mid & post & -> & Hread & Htally' & Hgo & Hstop).
      { by apply tallies_bump. }
      { rewrite length_app. cbn. lia. }
      exists (hb :: mid), post.
      rewrite <- !app_assoc in *. cbn in *. split_and!; try done.
      intros mid1 mid2 Heq Hne k Hk. destruct mid1 as [|hb' mid1].
      * rewrite (app_nil_r pre) in *.
        apply occurrences_pos in Hk.
        eapply all_below_true; [exact Hall|]. by apply Htally.
      * cbn in Heq. injection Heq as <- ->.
        specialize (Hgo mid1 mid2 eq_refl Hne k).
        rewrite <- !app_assoc in Hgo. cbn in Hgo. by apply Hgo.
    + exists [], (hb :: hbs). rewrite (app_nil_r pre). cbn.
      split_and!; [done|done|done| |].
      * intros mid1 mid2 Heq Hne. symmetry in Heq.
        apply app_eq_nil in Heq as [_ ->]. done.
      * right. apply all_below_false in Hall as (k & v & Hin & Hle).
        exists k. apply Htally in Hin as [-> Hpos].
        split; [by apply occurrences_pos|done].
Qed.

Lemma occurrences_app_le (k : Z) (l1 l2 : list (option Z)) :
  (occurrences k l1 ≤ occurrences k (l1 ++ l2))%Z.
Proof. unfold occurrences. rewrite filter_app, length_app. lia. Qed.

(** X26: [find_running_instances] reads heartbeats up to and including the
    first one that brings some index to [min_heartbeat] occurrences, or all
    of them when it times out first: it reads at least one heartbeat if
    there is one; at every heartbeat it goes on to read, no index seen so
    far had [min_heartbeat] occurrences; and when it leaves heartbeats
    unread, an index among those read has [min_heartbeat] occurrences. The
    indices it returns are distinct and are exactly the indices of the
    heartbeats it has read, whatever their number of occurrences; when no
    index occurs [min_heartbeat] times before the timeout, every heartbeat
    is read. *)
Theorem find_running_instances_spec (component : string) (min_heartbeat : Z)
    (hbs : list (option Z)) :
  ∃ read rest,
    hbs = read ++ rest ∧
    heartbeats_read min_heartbeat hbs = length read ∧
    (find_running_instances component min_heartbeat hbs).1 = component ∧
    NoDup (find_running_instances component min_heartbeat hbs).2 ∧
    (∀ idx, idx ∈ (find_running_instances component min_heartbeat hbs).2 ↔
            idx ∈ map sal_index read) ∧
    (hbs ≠ [] → read ≠ []) ∧
    (∀ pre post, read = pre ++ post → post ≠ [] →
       ∀ idx, idx ∈ map sal_index pre →
              (occurrences idx pre < min_heartbeat)%Z) ∧
    (rest = [] ∨
     ∃ idx, idx ∈ map sal_index read ∧
            (min_heartbeat ≤ occurrences idx read)%Z) ∧
    ((∀ idx, (occurrences idx hbs < min_heartbeat)%Z) → rest = []).
Proof.
  destruct (heartbeat_loop_spec min_heartbeat hbs [] 0 [])
    as (read & rest & -> & Hread & [Hnd Htally] & Hgo & Hstop).
  { split; [constructor|]. intros k v. split.
    - by intros Hin%not_elem_of_nil.
    - intros [-> Hpos]. unfold occurrences in Hpos.
      rewrite filter_nil in Hpos. cbn in Hpos. lia. }
  { done. }
  cbn [app] in *. exists read, rest.
  unfold heartbeats_read, find_running_instances. cbn [fst snd].
  split_and!; [done|done|done|done| | |done|done|].
  - intros idx. rewrite <- occurrences_pos, list_elem_of_fmap. split.
    + intros ((k & v) & -> & Hin). cbn. apply Htally in Hin as [-> Hpos].
      done.
    + intros Hpos. exists (idx, occurrences idx read). split; [done|].
      by apply Htally.
  - intros Hne ->. destruct Hstop as [->|(idx & Hin & _)]; [done|].
    by apply not_elem_of_nil in Hin.
  - intros Hfew. destruct Hstop as [->|(idx & _ & Hle)]; [done|].
    pose proof (occurrences_app_le idx read rest).
    specialize (Hfew idx). lia.
Qed.

(** X27: with [min_heartbeat] at most 1 the first heartbeat ends the loop:
    one heartbeat is read and its index is the only one returned. *)
Theorem find_running_instances_first (component : string) (min_heartbeat : Z)
    (hb : option Z) (hbs : list (option Z)) :
  (min_heartbeat ≤ 1)%Z →
  find_running_instances component min_heartbeat (hb :: hbs)
  = (component, [sal_index hb]) ∧
  heartbeats_read min_heartbeat (hb :: hbs) = 1.
Proof.
  intros Hmin. unfold find_running_instances, heartbeats_read.
  cbn [heartbeat_loop all_below forallb bump].
  assert (heartbeat_loop min_heartbeat hbs [(sal_index hb, 1%Z)] 1
          = ([(sal_index hb, 1%Z)], 1)) as ->; [|done].
  destruct hbs; cbn; rewrite bool_decide_false by lia; done.
Qed.

Lemma find_running_instances_first_witness :
  find_running_instances "Script" 1 [Some 3%Z; Some 4%Z; None]
  = ("Script", [sal_index (Some 3%Z)]) ∧
  heartbeats_read 1 [Some 3%Z; Some 4%Z; None] = 1.
Proof.
  apply (find_running_instances_first "Script" 1 (Some 3%Z) [Some 4%Z; None]).
  lia.
Defined.

(** Three heartbeats asked for: the instance seen once is returned with the
    instance seen three times. *)
Example find_running_instances_example :
  find_running_instances "Script" 3
    [Some 1%Z; Some 2%Z; Some 1%Z; Some 1%Z; Some 5%Z]
  = ("Script", [1%Z; 2%Z]).
Proof. reflexivity. Qed.

End UtilsExtra.

(** * Exposure times of the ATCamera test script *)

Module ATCamTakeImageExtra.
Import ATCamTakeImage.

Lemma SFltb_zero_trans y x :
  SFltb y x = true → SFltb x (S754_zero false) = true →
  SFltb y (S754_zero false) = true.
Proof.
  unfold SFltb.
  destruct x as [s|s| |s m e], y as [s'|s'| |s' m' e']; simpl;
    try discriminate; try done;
    destruct s; try destruct s'; simpl; try discriminate; done.
Qed.

Lemma SFltb_zero_between y x :
  SFltb y (S754_zero false) = true → SFltb x (S754_zero false) = false →
  x ≠ S754_nan → SFltb y x = true.
Proof.
  unfold SFltb.
  destruct x as [s|s| |s m e], y as [s'|s'| |s' m' e']; simpl;
    try discriminate; try done;
    destruct s; try destruct s'; simpl; try discriminate; done.
Qed.

Lemma not_nan_SF (x : float) : is_nan x = false → Prim2SF x ≠ S754_nan.
Proof.
  unfold is_nan. rewrite negb_false_iff, FloatAxioms.eqb_spec.
  intros Heq Hnan. rewrite Hnan in Heq. discriminate.
Qed.

Lemma minimum_nonneg (x y : float) :
  is_nan x = false → is_nan y = false →
  (minimum x y <? 0)%float = false →
  is_nan (minimum x y) = false ∧
  (x <? 0)%float = false ∧ (y <? 0)%float = false.
Proof.
  intros Hx Hy. unfold minimum. rewrite Hx, Hy.
  destruct (y <? x)%float eqn:Hyx; intros Hmin; (split; [done|]).
  - split; [|done].
    destruct (x <? 0)%float eqn:Hx0; [|done].
    rewrite ltb_spec in Hyx, Hx0, Hmin.
    change (Prim2SF 0) with (S754_zero false) in *.
    by rewrite (SFltb_zero_trans _ _ Hyx Hx0) in Hmin.
  - split; [done|].
    destruct (y <? 0)%float eqn:Hy0; [|done].
    rewrite ltb_spec in Hyx, Hy0, Hmin.
    change (Prim2SF 0) with (S754_zero false) in *.
    by rewrite (SFltb_zero_between _ _ Hy0 Hmin (not_nan_SF x Hx)) in Hyx.
Qed.

Lemma fold_minimum_nonneg (l : list float) :
  ∀ x,
    is_nan x = false → Forall (λ t, is_nan t = false) l →
    (fold_left minimum l x <? 0)%float = false →
    (x <? 0)%float = false ∧ Forall (λ t, (t <? 0)%float = false) l.
Proof.
  induction l as [|y l IH]; intros x Hx Hl Hmin; [by split|].
  apply Forall_cons in Hl as [Hy Hl]. cbn [fold_left] in Hmin.
  destruct (minimum x y <? 0)%float eqn:Hxy.
  - (* the running minimum is already negative and stays so *)
    exfalso. revert Hmin.
    assert (Hm : is_nan (minimum x y) = false).
    { unfold minimum. rewrite Hx, Hy. by destruct (y <? x)%float. }
    clear IH. revert Hm Hxy. generalize (minimum x y) as acc.
    induction l as [|z l IHl]; intros acc Hacc Hneg; cbn [fold_left].
    + by rewrite Hneg.
    + apply Forall_cons in Hl as [Hz Hl]. apply (IHl Hl).
      * unfold minimum. rewrite Hacc, Hz. by destruct (z <? acc)%float.
      * destruct (minimum acc z <? 0)%float eqn:Hn; [done|].
        apply minimum_nonneg in Hn as (_ & Hacc0 & _); [|done|done].
        by rewrite Hacc0 in Hneg.
  - destruct (minimum_nonneg x y Hx Hy Hxy) as (Hm & Hx0 & Hy0).
    destruct (IH (minimum x y) Hm Hl Hmin) as [_ Hl0].
    split; [done|]. by constructor.
Qed.

(** X28: when [configure] accepts, the list of exposure times is not
    empty; it is the given sequence, or the given single value repeated
    [nimages] times; and if no entry is NaN, no entry is negative. *)
Theorem configure_exp_times (nimages : Z) (exp_times : Utils.Arg float)
    (exps : list float) :
  configure nimages exp_times = inr exps →
  exps ≠ [] ∧
  match exp_times with
  | Utils.Sequence l => exps = l
  | Utils.Scalar t =>
      Z.of_nat (length exps) = nimages ∧ ∀ x, x ∈ exps → x = t
  end ∧
  (Forall (λ t, is_nan t = false) exps →
   Forall (λ t, (t <? 0)%float = false) exps).
Proof.
  unfold configure. intros Hcfg.
  assert (∃ l, match exp_times with
               | Utils.Sequence l0 => l0 ≠ [] ∧ l = l0
               | Utils.Scalar t =>
                   (1 ≤ nimages)%Z ∧ l = Utils.times t nimages
               end ∧
               (np_min l <? 0)%float = false ∧ exps = l)
    as (l & Hshape & Hmin & ->).
  { destruct exp_times as [t|l0].
    - case_bool_decide; [discriminate|].
      destruct (np_min _ <? 0)%float eqn:Hmin; [discriminate|].
      injection Hcfg as <-. eexists. split_and!; [lia|done|done|done].
    - case_bool_decide as Hlen; [discriminate|].
      destruct (np_min _ <? 0)%float eqn:Hmin; [discriminate|].
      injection Hcfg as <-. eexists. split_and!; [|done|done|done].
      intros ->. by apply Hlen. }
  assert (l ≠ []) as Hne.
  { destruct exp_times as [t|l0]; destruct Hshape as [H1 ->]; [|done].
    unfold Utils.times. destruct (Z.to_nat nimages) eqn:Hn; [lia|done]. }
  split_and!; [done| |].
  - destruct exp_times as [t|l0]; destruct Hshape as [H1 ->]; [|done].
    split.
    + apply UtilsExtra.times_length. lia.
    + intros x. apply UtilsExtra.times_elem.
  - destruct l as [|x l]; [done|]. intros [Hx Hl]%Forall_cons.
    destruct (fold_minimum_nonneg l x Hx Hl Hmin) as [Hx0 Hl0].
    by constructor.
Qed.

(** A NaN hides a negative exposure time from the check. *)
Example configure_nan_hides_negative :
  configure 1 (Utils.Sequence [(-5)%float; nan]) = inr [(-5)%float; nan].
Proof. vm_compute. reflexivity. Qed.

Lemma configure_exp_times_witness :
  [2; 2; 2]%float ≠ [] ∧
  (Z.of_nat (length [2; 2; 2]%float) = 3%Z ∧
   ∀ x, x ∈ [2; 2; 2]%float → x = 2%float) ∧
  (Forall (λ t, is_nan t = false) [2; 2; 2]%float →
   Forall (λ t, (t <? 0)%float = false) [2; 2; 2]%float).
Proof.
  apply (configure_exp_times 3 (Utils.Scalar 2%float) [2; 2; 2]%float).
  vm_compute. reflexivity.
Defined.

End ATCamTakeImageExtra.
